(** * SnakeKit Studio: the live engine and its two exported artifacts

    A shallow embedding of [src/src/App.tsx]:
    - the live preview engine (React state, the interval callback, the
      keyboard and swipe handlers, the builder and the Restart button);
    - the script embedded in the HTML export ([exportHTML]);
    - the game loop embedded in the Python export ([doExport]).

    JavaScript numbers that hold grid coordinates are integers, modelled
    as [Z]; the results of [Math.random()] and pointer coordinates are
    modelled as rationals [Q].  A [Set<string>] of cell keys is a
    [gset string]; arrays are lists. *)

From stdpp Require Import base decidable option list gmap sets strings pretty.
From Stdlib Require Import ZArith QArith Qround Qabs Qcanon Lia Lqa Ascii.

Local Open Scope Z_scope.

(** ** Data model (App.tsx, lines 4-23) *)

Record Position := Pos { px : Z; py : Z }.

Inductive Kind := food | obstacle.

Record BuilderCell := Cell { bx : Z; by_ : Z; kind : Kind }.

Inductive Dir := UP | DOWN | LEFT | RIGHT.

Global Instance Position_eq_dec : EqDecision Position.
Proof. solve_decision. Defined.
Global Instance Kind_eq_dec : EqDecision Kind.
Proof. solve_decision. Defined.
Global Instance Dir_eq_dec : EqDecision Dir.
Proof. solve_decision. Defined.

Definition GRID_SIZE : Z := 20.

(** [Math.floor(GRID_SIZE / 2)] on a non-negative integer is [Z.div]. *)
Definition START_SNAKE : list Position :=
  [ Pos (GRID_SIZE / 2 - 1) (GRID_SIZE / 2);
    Pos (GRID_SIZE / 2) (GRID_SIZE / 2);
    Pos (GRID_SIZE / 2 + 1) (GRID_SIZE / 2) ].

(** The template string [`${p.x},${p.y}`]: decimal digits, a leading
    minus sign for negative numbers. *)
Definition keyFor (p : Position) : string :=
  pretty (px p) +:+ "," +:+ pretty (py p).

(** ** JavaScript helpers *)

(** [Array.prototype.some] with the cell comparison
    [p => p.x === nx && p.y === ny]. *)
Definition same_cell (nx ny : Z) (p : Position) : bool :=
  (px p =? nx) && (py p =? ny).

Definition some_cell (nx ny : Z) (l : list Position) : bool :=
  existsb (same_cell nx ny) l.

(** [Array.prototype.findIndex]: the first index whose element passes
    the test, [None] standing for [-1]. *)
Fixpoint findIndex {A} (f : A → bool) (l : list A) : option nat :=
  match l with
  | [] => None
  | a :: l' => if f a then Some 0%nat else S <$> findIndex f l'
  end.

(** [arr[i]] for an integer [i]: [undefined] (here [None]) out of range. *)
Definition js_index {A} (l : list A) (i : Z) : option A :=
  if decide (0 ≤ i) then l !! Z.to_nat i else None.

(** [Math.floor(Math.random() * n)], the draw being [r]. *)
Definition random_below (r : Q) (n : Z) : Z :=
  Qfloor (r * inject_Z n).

(** A draw of [Math.random()] lies in [[0, 1)]. *)
Definition unit_draw (r : Q) : Prop := (0 <= r)%Q ∧ (r < 1)%Q.

Definition Qgtb (a b : Q) : bool := negb (Qle_bool a b).
Definition Qltb (a b : Q) : bool := negb (Qle_bool b a).

(** ** Food spawner (App.tsx, lines 29-39) *)

(** The two nested loops: rows [y] outermost, columns [x] innermost,
    pushing every cell whose key is not in [occupied]. *)
Definition empty_cells (occupied : gset string) (gridSize : Z) : list Position :=
  y ← seqZ 0 gridSize;
  x ← seqZ 0 gridSize;
  if decide (keyFor (Pos x y) ∈ occupied) then [] else [Pos x y].

Definition randomEmptyCell (occupied : gset string) (gridSize : Z) (r : Q)
  : option Position :=
  let empty := empty_cells occupied gridSize in
  if decide (length empty = 0%nat) then None
  else js_index empty (random_below r (Z.of_nat (length empty))).

(** ** Live engine state (App.tsx, lines 166-192) *)

Record App := mkApp {
  builder : list BuilderCell;
  snake : list Position;
  dir : Dir;
  foods : list Position;
  obstacles : list Position;
  paused : bool;
  gameOver : bool;
  score : Z;
  touchStart : option (Q * Q)
}.

Definition initialFoods (b : list BuilderCell) : list Position :=
  (λ c, Pos (bx c) (by_ c)) <$> filter (λ c, kind c = food) b.

Definition initialObstacles (b : list BuilderCell) : list Position :=
  (λ c, Pos (bx c) (by_ c)) <$> filter (λ c, kind c = obstacle) b.

(** State after the first render and its effects, for a builder [b]. *)
Definition mount (b : list BuilderCell) : App :=
  {| builder := b; snake := START_SNAKE; dir := RIGHT;
     foods := initialFoods b; obstacles := initialObstacles b;
     paused := false; gameOver := false; score := 0; touchStart := None |}.

Definition initial : App := mount [].

Definition set_snake (v : list Position) (s : App) : App :=
  {| builder := builder s; snake := v; dir := dir s; foods := foods s;
     obstacles := obstacles s; paused := paused s; gameOver := gameOver s;
     score := score s; touchStart := touchStart s |}.
Definition set_dir (v : Dir) (s : App) : App :=
  {| builder := builder s; snake := snake s; dir := v; foods := foods s;
     obstacles := obstacles s; paused := paused s; gameOver := gameOver s;
     score := score s; touchStart := touchStart s |}.
Definition set_foods (v : list Position) (s : App) : App :=
  {| builder := builder s; snake := snake s; dir := dir s; foods := v;
     obstacles := obstacles s; paused := paused s; gameOver := gameOver s;
     score := score s; touchStart := touchStart s |}.
Definition set_obstacles (v : list Position) (s : App) : App :=
  {| builder := builder s; snake := snake s; dir := dir s; foods := foods s;
     obstacles := v; paused := paused s; gameOver := gameOver s;
     score := score s; touchStart := touchStart s |}.
Definition set_paused (v : bool) (s : App) : App :=
  {| builder := builder s; snake := snake s; dir := dir s; foods := foods s;
     obstacles := obstacles s; paused := v; gameOver := gameOver s;
     score := score s; touchStart := touchStart s |}.
Definition set_gameOver (v : bool) (s : App) : App :=
  {| builder := builder s; snake := snake s; dir := dir s; foods := foods s;
     obstacles := obstacles s; paused := paused s; gameOver := v;
     score := score s; touchStart := touchStart s |}.
Definition set_score (v : Z) (s : App) : App :=
  {| builder := builder s; snake := snake s; dir := dir s; foods := foods s;
     obstacles := obstacles s; paused := paused s; gameOver := gameOver s;
     score := v; touchStart := touchStart s |}.
Definition set_touchStart (v : option (Q * Q)) (s : App) : App :=
  {| builder := builder s; snake := snake s; dir := dir s; foods := foods s;
     obstacles := obstacles s; paused := paused s; gameOver := gameOver s;
     score := score s; touchStart := v |}.

(** The builder changed: [useMemo] recomputes both derived lists and the
    two sync effects (lines 187-192) copy them into the game state. *)
Definition set_builder (b : list BuilderCell) (s : App) : App :=
  {| builder := b; snake := snake s; dir := dir s;
     foods := initialFoods b; obstacles := initialObstacles b;
     paused := paused s; gameOver := gameOver s;
     score := score s; touchStart := touchStart s |}.

(** The three lifecycle states of the specification, read off the two
    flags the code keeps. *)
Inductive GameStatus := RUNNING | PAUSED | GAME_OVER.

Definition status (s : App) : GameStatus :=
  if gameOver s then GAME_OVER else if paused s then PAUSED else RUNNING.

(** ** Direction filter of the keyboard handler (lines 196-214) *)

Definition opposite (d nd : Dir) : bool :=
  match d, nd with
  | UP, DOWN | DOWN, UP | LEFT, RIGHT | RIGHT, LEFT => true
  | _, _ => false
  end.

(** What the handler leaves in [dir] for a recognised key. *)
Definition accept (current requested : Dir) : Dir :=
  if opposite current requested then current else requested.

Definition key_dir (k : string) : option Dir :=
  if bool_decide (k = "ArrowUp" ∨ k = "w" ∨ k = "W") then Some UP
  else if bool_decide (k = "ArrowDown" ∨ k = "s" ∨ k = "S") then Some DOWN
  else if bool_decide (k = "ArrowLeft" ∨ k = "a" ∨ k = "A") then Some LEFT
  else if bool_decide (k = "ArrowRight" ∨ k = "d" ∨ k = "D") then Some RIGHT
  else None.

Definition onKey (k : string) (s : App) : App :=
  match key_dir k with
  | Some nd =>
      if opposite (dir s) nd then s
      else match nd with
           | UP => set_dir UP s
           | DOWN => set_dir DOWN s
           | LEFT => set_dir LEFT s
           | RIGHT => set_dir RIGHT s
           end
  | None => s
  end.

(** ** Swipe handler (lines 424-437) *)

Definition onTouchStart (p : Q * Q) (s : App) : App :=
  set_touchStart (Some p) s.

Definition onTouchEnd (p : Q * Q) (s : App) : App :=
  match touchStart s with
  | None => s
  | Some t =>
      let dx := (fst p - fst t)%Q in
      let dy := (snd p - snd t)%Q in
      let s' :=
        if Qgtb (Qabs dx) (Qabs dy) then
          if Qgtb dx 20 then set_dir RIGHT s
          else if Qltb dx (-20) then set_dir LEFT s else s
        else
          if Qgtb dy 20 then set_dir DOWN s
          else if Qltb dy (-20) then set_dir UP s else s in
      set_touchStart None s'
  end.

(** ** The interval callback (lines 223-269) *)

Definition candidate (head : Position) (d : Dir) : Z * Z :=
  let nx := px head in
  let ny := py head in
  let ny := if decide (d = UP) then ny - 1 else ny in
  let ny := if decide (d = DOWN) then ny + 1 else ny in
  let nx := if decide (d = LEFT) then nx - 1 else nx in
  let nx := if decide (d = RIGHT) then nx + 1 else nx in
  (nx, ny).

Definition out_of_grid (g nx ny : Z) : bool :=
  (nx <? 0) || (ny <? 0) || (nx >=? g) || (ny >=? g).

(** [nextSnake.pop()]: drop the last element. *)
Definition pop {A} (l : list A) : list A := removelast l.

(** One firing of the interval callback; [r] is the draw [Math.random()]
    returns if the spawner is reached.  [None] is the [TypeError] of
    [head.x] on an empty snake. *)
Definition tick (r : Q) (s : App) : option App :=
  match snake s with
  | [] => None
  | head :: _ =>
      let '(nx, ny) := candidate head (dir s) in
      if out_of_grid GRID_SIZE nx ny then Some (set_gameOver true s)
      else if some_cell nx ny (snake s) then Some (set_gameOver true s)
      else if some_cell nx ny (obstacles s) then Some (set_gameOver true s)
      else
        let nextSnake := Pos nx ny :: snake s in
        match findIndex (same_cell nx ny) (foods s) with
        | Some eatIndex =>
            let newFoods := delete eatIndex (foods s) in
            let occupied : gset string :=
              list_to_set ((keyFor <$> nextSnake) ++ (keyFor <$> obstacles s)) in
            let s1 := set_foods newFoods (set_score (score s + 1) s) in
            let s2 :=
              match randomEmptyCell occupied GRID_SIZE r with
              | Some spawn => set_foods (foods s1 ++ [spawn]) s1
              | None => s1
              end in
            Some (set_snake nextSnake s2)
        | None => Some (set_snake (pop nextSnake) s)
        end
  end.

(** The effect only installs the interval while neither flag is set
    (line 221). *)
Definition game_loop (r : Q) (s : App) : option App :=
  if paused s || gameOver s then Some s else tick r s.

(** Successive timer firings with no input in between, one per draw. *)
Fixpoint run (rs : list Q) (s : App) : option App :=
  match rs with
  | [] => Some s
  | r :: rs' => s' ← game_loop r s; run rs' s'
  end.

(** ** Buttons and the builder (lines 318-331, 440-451, 517-518) *)

Definition togglePause (s : App) : App := set_paused (negb (paused s)) s.

(** The Restart button: four setters, nothing else. *)
Definition restart (s : App) : App :=
  set_gameOver false (set_score 0 (set_dir RIGHT (set_snake START_SNAKE s))).

Definition builder_has (cx cy : Z) (b : list BuilderCell) : bool :=
  existsb (λ c, (bx c =? cx) && (by_ c =? cy)) b.

Definition addToBuilder (k : Kind) (s : App) : App :=
  let cx := GRID_SIZE / 2 in
  let cy := GRID_SIZE / 2 in
  if builder_has cx cy (builder s) then s
  else set_builder (builder s ++ [Cell cx cy k]) s.

(** [onDrop], from the point where the cell [(x, y)] under the pointer
    has been computed. *)
Definition onDrop (k : Kind) (cx cy : Z) (s : App) : App :=
  if (cx >=? 0) && (cy >=? 0) && (cx <? GRID_SIZE) && (cy <? GRID_SIZE) then
    if builder_has cx cy (builder s) then s
    else set_builder (builder s ++ [Cell cx cy k]) s
  else s.

Definition clearBuilder (s : App) : App :=
  set_obstacles [] (set_foods [] (set_builder [] s)).

(** ** Everything that can happen to the live engine *)

Inductive event :=
| Tick (r : Q)
| Key (k : string)
| TouchStart (p : Q * Q)
| TouchEnd (p : Q * Q)
| TogglePause
| Restart
| AddToBuilder (k : Kind)
| Drop (k : Kind) (cx cy : Z)
| ClearBuilder.

Definition handle (e : event) (s : App) : option App :=
  match e with
  | Tick r => game_loop r s
  | Key k => Some (onKey k s)
  | TouchStart p => Some (onTouchStart p s)
  | TouchEnd p => Some (onTouchEnd p s)
  | TogglePause => Some (togglePause s)
  | Restart => Some (restart s)
  | AddToBuilder k => Some (addToBuilder k s)
  | Drop k cx cy => Some (onDrop k cx cy s)
  | ClearBuilder => Some (clearBuilder s)
  end.

(** An event the runtime can deliver: a timer firing carries a draw of
    [Math.random()]. *)
Definition deliverable (e : event) : Prop :=
  match e with Tick r => unit_draw r | _ => True end.

(** Events of play, as opposed to edits of the builder. *)
Definition play_event (e : event) : Prop :=
  match e with
  | Tick r => unit_draw r
  | AddToBuilder _ | Drop _ _ _ | ClearBuilder => False
  | _ => True
  end.

Inductive reaches (allowed : event → Prop) (s0 : App) : App → Prop :=
| reaches_here : reaches allowed s0 s0
| reaches_step s e s' :
    reaches allowed s0 s → allowed e → handle e s = Some s' →
    reaches allowed s0 s'.

Definition reachable : App → Prop := reaches deliverable initial.

(** ** The script embedded by [exportHTML] (lines 90-159)

    The script is read as the JavaScript it spells: the TypeScript
    annotations left in its text ([<string>], [as any],
    [as keyof typeof map]) are erased and the inner template strings
    are the cell keys of [keyFor]. *)

Module Html.

(** [dir] is the object [{x, y}]. *)
Record Vec := mkVec { vx : Z; vy : Z }.

Record State := mkState {
  GRID : Z;
  snake : list Position;
  dir : Vec;
  foods : list Position;
  obstacles : list Position;
  paused : bool;
  gameOver : bool
}.

(** The globals as the template initialises them. *)
Definition exported (grid : Z) (snake0 foods0 obstacles0 : list Position)
  : State :=
  {| GRID := grid; snake := snake0; dir := mkVec 1 0; foods := foods0;
     obstacles := obstacles0; paused := false; gameOver := false |}.

Definition set_gameOver (s : State) : State :=
  {| GRID := GRID s; snake := snake s; dir := dir s; foods := foods s;
     obstacles := obstacles s; paused := paused s; gameOver := true |}.
Definition set_dir (v : Vec) (s : State) : State :=
  {| GRID := GRID s; snake := snake s; dir := v; foods := foods s;
     obstacles := obstacles s; paused := paused s; gameOver := gameOver s |}.
Definition set_body (sn fo : list Position) (s : State) : State :=
  {| GRID := GRID s; snake := sn; dir := dir s; foods := fo;
     obstacles := obstacles s; paused := paused s; gameOver := gameOver s |}.

(** [Set.prototype.add] takes one argument: of the spread keys only
    the first is added; with no key at all the value added is
    [undefined], which no later [has(string)] finds. *)
Definition add_spread (s : gset string) (args : list string) : gset string :=
  match args with
  | [] => s
  | k :: _ => {[ k ]} ∪ s
  end.

(** The inner [spawn] closure (lines 131-139); [rs] are the successive
    draws of [Math.random()], the result is the [foods] array. *)
Definition spawn (grid : Z) (occupiedSet : gset string) (rs : nat → Q)
    (fo : list Position) : list Position :=
  let unchecked (i : nat) (fo : list Position) :=
    if decide (length fo < 5)%nat
    then fo ++ [Pos (random_below (rs i) grid)
                    (random_below (rs (S i)) grid)]
    else fo in
  if Qgtb (rs 0%nat) 0 then
    let p := Pos (random_below (rs 1%nat) grid)
                 (random_below (rs 2%nat) grid) in
    if decide (keyFor p ∈ occupiedSet) then unchecked 3%nat fo
    else fo ++ [p]
  else unchecked 1%nat fo.

(** [step] (lines 118-144); [None] is the [TypeError] of [head.x] on
    an empty snake. *)
Definition step (rs : nat → Q) (s : State) : option State :=
  if gameOver s || paused s then Some s
  else match snake s with
  | [] => None
  | head :: _ =>
      let nx := px head + vx (dir s) in
      let ny := py head + vy (dir s) in
      if out_of_grid (GRID s) nx ny then Some (set_gameOver s)
      else if some_cell nx ny (snake s) then Some (set_gameOver s)
      else if some_cell nx ny (obstacles s) then Some (set_gameOver s)
      else
        let ateFoodIndex := findIndex (same_cell nx ny) (foods s) in
        let snake1 := Pos nx ny :: snake s in
        match ateFoodIndex with
        | Some i =>
            let foods1 := delete i (foods s) in
            let occupiedSet :=
              add_spread (list_to_set (keyFor <$> snake1))
                         (keyFor <$> obstacles s) in
            Some (set_body snake1 (spawn (GRID s) occupiedSet rs foods1) s)
        | None => Some (set_body (pop snake1) (foods s) s)
        end
  end.

(** A JavaScript value compared with a string literal by [===]: an
    object is never equal to a string. *)
Inductive value := js_string (t : string) | js_object (v : Vec).

Definition strict_eq (v : value) (lit : string) : bool :=
  match v with
  | js_string t => bool_decide (t = lit)
  | js_object _ => false
  end.

Definition key_map (k : string) : option string :=
  if bool_decide (k = "ArrowUp") then Some "UP"
  else if bool_decide (k = "ArrowDown") then Some "DOWN"
  else if bool_decide (k = "ArrowLeft") then Some "LEFT"
  else if bool_decide (k = "ArrowRight") then Some "RIGHT"
  else None.

(** The [keydown] listener (lines 149-159). *)
Definition keydown (k : string) (s : State) : State :=
  match key_map k with
  | None => s
  | Some ndir =>
      let d := js_object (dir s) in
      let opposite :=
        (strict_eq d "UP" && bool_decide (ndir = "DOWN"))
        || (strict_eq d "DOWN" && bool_decide (ndir = "UP"))
        || (strict_eq d "LEFT" && bool_decide (ndir = "RIGHT"))
        || (strict_eq d "RIGHT" && bool_decide (ndir = "LEFT")) in
      if opposite then s
      else if bool_decide (ndir = "UP") then set_dir (mkVec 0 (-1)) s
      else if bool_decide (ndir = "DOWN") then set_dir (mkVec 0 1) s
      else if bool_decide (ndir = "LEFT") then set_dir (mkVec (-1) 0) s
      else if bool_decide (ndir = "RIGHT") then set_dir (mkVec 1 0) s
      else s
  end.

End Html.

(** ** The loop embedded in the Python export (lines 365-407) *)

Module Py.

(** Elements of [self.foods] and [self.obstacles]: the text that
    [JSON.stringify] produces reads in Python as a list of dicts
    [{"x": .., "y": ..}]; the loop itself builds tuples. *)
Inductive value := tuple (a b : Z) | dict (vx vy : Z).

Global Instance value_eq_dec : EqDecision value.
Proof. solve_decision. Defined.

Record State := mkState {
  snake : list (Z * Z);
  dir : Z * Z;
  foods : list value;
  obstacles : list value;
  running : bool
}.

Definition of_json (l : list Position) : list value :=
  (λ p, dict (px p) (py p)) <$> l.

(** [__init__] (lines 366-375). *)
Definition init (grid : Z) (foods0 obstacles0 : list Position) : State :=
  {| snake := [ (grid / 2, grid / 2); (grid / 2 - 1, grid / 2);
                (grid / 2 - 2, grid / 2) ];
     dir := (1, 0);
     foods := of_json foods0; obstacles := of_json obstacles0;
     running := true |}.

Definition stop (s : State) : State :=
  {| snake := snake s; dir := dir s; foods := foods s;
     obstacles := obstacles s; running := false |}.

(** [list.remove(v)]: drop the first element equal to [v]. *)
Fixpoint remove_first (v : value) (l : list value) : list value :=
  match l with
  | [] => []
  | a :: l' => if decide (a = v) then l' else a :: remove_first v l'
  end.

(** The game logic of one iteration of [run] (lines 383-396); [None]
    is the [IndexError] of [self.snake[0]] on an empty snake. *)
Definition move (grid : Z) (s : State) : option State :=
  match snake s with
  | [] => None
  | head :: _ =>
      let nx := fst head + fst (dir s) in
      let ny := snd head + snd (dir s) in
      if out_of_grid grid nx ny then Some (stop s)
      else if bool_decide ((nx, ny) ∈ snake s) then Some (stop s)
      else
        let snake1 := (nx, ny) :: snake s in
        if bool_decide (tuple nx ny ∈ foods s) then
          Some {| snake := snake1; dir := dir s;
                  foods := remove_first (tuple nx ny) (foods s);
                  obstacles := obstacles s; running := running s |}
        else
          Some {| snake := pop snake1; dir := dir s; foods := foods s;
                  obstacles := obstacles s; running := running s |}
  end.

(** The drawing code that follows (lines 397-404) subscripts every
    food and obstacle with [[0]] and [[1]]; on a dict that is a
    [KeyError], here [None]. *)
Definition is_tuple (v : value) : bool :=
  match v with tuple _ _ => true | dict _ _ => false end.

Definition draw (s : State) : option unit :=
  if forallb is_tuple (foods s) && forallb is_tuple (obstacles s)
  then Some () else None.

(** One pass through the body of [while self.running]: [break] skips
    the drawing. *)
Definition iteration (grid : Z) (s : State) : option State :=
  s' ← move grid s;
  if running s' then _ ← draw s'; Some s' else Some s'.

End Py.

(** ** Predicates and concrete states of the statements *)

(** The unit delta of a heading, in the words of the data model:
    UP=(0,-1), DOWN=(0,1), LEFT=(-1,0), RIGHT=(1,0). *)
Definition delta (d : Dir) : Z * Z :=
  match d with
  | UP => (0, -1)
  | DOWN => (0, 1)
  | LEFT => (-1, 0)
  | RIGHT => (1, 0)
  end.

(** The three game-over tests of the callback, in its order. *)
Definition blocked (s : App) (nx ny : Z) : bool :=
  out_of_grid GRID_SIZE nx ny
  || some_cell nx ny (snake s)
  || some_cell nx ny (obstacles s).

(** The instance named by C4: head (19,10) heading RIGHT on the grid of
    size 20. *)
Definition at_right_wall : App :=
  set_snake [Pos 19 10; Pos 18 10; Pos 17 10] initial.

(** The configuration C2 names: the initial snake of the code with its
    head, index 0, at (9,10), heading RIGHT, one food at (15,10). *)
Definition fixture : App := mount [Cell 15 10 food].

(** The same run with the snake laid out head first towards the right,
    as the Python export lays it out. *)
Definition fixture_head_right : App :=
  set_snake [Pos 10 10; Pos 9 10; Pos 8 10] fixture.

(** The same run one cell before the food (15,10). *)
Definition about_to_eat : App :=
  set_snake [Pos 14 10; Pos 13 10; Pos 12 10] fixture.

Definition html_start : Html.State :=
  Html.exported GRID_SIZE START_SNAKE [] [].

Definition swipe_left : App :=
  onTouchEnd (50, 100)%Q (onTouchStart (100, 100)%Q initial).

Definition html_before_food : Html.State :=
  Html.exported GRID_SIZE [Pos 10 10; Pos 9 10; Pos 8 10] [Pos 11 10] [].

(** Draws [1/2, 11/20, 1/2, 11/20, 1/2, ...]: both random cells are
    (11,10). *)
Definition html_draws (i : nat) : Q :=
  if Nat.even i then (1 # 2)%Q else (11 # 20)%Q.

(** The HTML state that corresponds to a live state: same grid, snake,
    foods, obstacles and flags, [dir] the delta of the live heading. *)
Definition html_view (s : App) : Html.State :=
  {| Html.GRID := GRID_SIZE; Html.snake := snake s;
     Html.dir := Html.mkVec (fst (delta (dir s))) (snd (delta (dir s)));
     Html.foods := foods s; Html.obstacles := obstacles s;
     Html.paused := paused s; Html.gameOver := gameOver s |}.

(** A snake heading RIGHT with an obstacle right in front of its head. *)
Definition before_obstacle : App :=
  set_snake [Pos 10 10; Pos 9 10; Pos 8 10] (mount [Cell 11 10 obstacle]).

Definition well_placed (s : App) : Prop :=
  NoDup (snake s) ∧ ∀ p, p ∈ snake s → p ∉ obstacles s.

(** What play preserves: the snake is well placed and a restart would
    be too. *)
Definition play_invariant (s : App) : Prop :=
  well_placed s ∧ ∀ p, p ∈ START_SNAKE → p ∉ obstacles s.

(** An event that puts no new obstacle on a cell of the current snake
    or of the initial snake. *)
Definition adds_no_obstacle_on_snake (e : event) (s : App) : Prop :=
  ∀ s' p, handle e s = Some s' →
          p ∈ obstacles s' → p ∉ obstacles s →
          (p ∉ snake s) ∧ (p ∉ START_SNAKE).

(** The states reached from the mounted game by such events. *)
Inductive reachable_clear : App → Prop :=
| clear_initial : reachable_clear initial
| clear_step s e s' :
    reachable_clear s → deliverable e → adds_no_obstacle_on_snake e s →
    handle e s = Some s' → reachable_clear s'.

(** A snake that turned up and moved two cells, then an obstacle
    dropped on the vacated cell (11,10), then Restart. *)
Definition turned_once : App :=
  default initial (game_loop 0 (onKey "ArrowUp" initial)).

Definition moved_away : App := default initial (game_loop 0 turned_once).

Definition obstacle_on_start : App :=
  restart (onDrop obstacle 11 10 moved_away).

(** The one-button edit of the builder that puts an obstacle on the
    centre cell (10,10), a cell of the initial snake. *)
Definition center_obstacle : App := addToBuilder obstacle initial.

(** A game with a food and an obstacle, after one accepted key and one
    timer firing. *)
Definition turned_up : App :=
  set_snake [Pos 9 9; Pos 9 10; Pos 10 10]
    (onKey "ArrowUp" (mount [Cell 15 10 food; Cell 3 3 obstacle])).

(** A paused game, and a game whose only food has been eaten and
    replaced by a spawned one. *)
Definition paused_game : App := togglePause initial.

Definition one_food : App := onKey "ArrowUp" (onDrop food 9 9 initial).

Definition after_meal : App :=
  {| builder := [Cell 9 9 food];
     snake := [Pos 9 9; Pos 9 10; Pos 10 10; Pos 11 10];
     dir := UP; foods := [Pos 0 0]; obstacles := [];
     paused := false; gameOver := false; score := 1; touchStart := None |}.

(** Two foods dropped above the head, then ArrowUp. *)
Definition two_foods : App :=
  onKey "ArrowUp" (onDrop food 9 8 (onDrop food 9 9 initial)).

(** ** The remaining helpers of App.tsx *)

(** A JavaScript number as [Math.max] and [Math.min] see it: [NaN], the
    two infinities, or a finite double, which is the rational it
    denotes (the two zeros, equal under [===], are one value).  Both
    functions return one of their arguments, so no rounding occurs. *)
Inductive number := NaN | NegInfinity | Num (q : Qc) | Infinity.

Global Instance number_eq_dec : EqDecision number.
Proof. solve_decision. Defined.

(** [a <= b] on numbers: false as soon as one side is [NaN]. *)
Definition number_le (a b : number) : bool :=
  match a, b with
  | NaN, _ | _, NaN => false
  | NegInfinity, _ => true
  | _, Infinity => true
  | Num p, Num q => bool_decide (p ≤ q)%Qc
  | _, _ => false
  end.

(** [Math.max] and [Math.min] of two numbers: [NaN] when either is. *)
Definition Math_max (a b : number) : number :=
  match a, b with
  | NaN, _ | _, NaN => NaN
  | _, _ => if number_le a b then b else a
  end.

Definition Math_min (a b : number) : number :=
  match a, b with
  | NaN, _ | _, NaN => NaN
  | _, _ => if number_le a b then a else b
  end.

(** [clamp] (lines 25-27): [Math.max(a, Math.min(b, n))]. *)
Definition clamp (n a b : number) : number := Math_max a (Math_min b n).

(** The key table of [useKeyDirection] (lines 48-61), an object used as
    a map from key names to headings. *)
Definition useKeyDirection_map : gmap string Dir :=
  <["ArrowUp" := UP]> (<["ArrowDown" := DOWN]> (<["ArrowLeft" := LEFT]>
  (<["ArrowRight" := RIGHT]> (<["w" := UP]> (<["W" := UP]>
  (<["s" := DOWN]> (<["S" := DOWN]> (<["a" := LEFT]> (<["A" := LEFT]>
  (<["d" := RIGHT]> (<["D" := RIGHT]> ∅))))))))))).

(** [removeCell] (lines 335-337): the builder without the cell at index
    [idx]; the filter keeps every cell when no index equals [idx]. *)
Definition removeCell (idx : Z) (s : App) : App :=
  set_builder (if decide (0 ≤ idx) then delete (Z.to_nat idx) (builder s)
               else builder s) s.

(** What [doExport] (lines 342-415) hands to the two artifacts: the
    HTML script starts from the current snake, foods and obstacles, the
    Python class from its own snake and the current foods and
    obstacles. *)
Definition doExport_html (s : App) : Html.State :=
  Html.exported GRID_SIZE (snake s) (foods s) (obstacles s).

Definition doExport_python (s : App) : Py.State :=
  Py.init GRID_SIZE (foods s) (obstacles s).

(** The Python state that corresponds to a live state. *)
Definition py_view (s : App) : Py.State :=
  {| Py.snake := (λ p, (px p, py p)) <$> snake s;
     Py.dir := delta (dir s);
     Py.foods := Py.of_json (foods s);
     Py.obstacles := Py.of_json (obstacles s);
     Py.running := true |}.

(** ** Predicates of the further statements *)

Definition in_grid (p : Position) : Prop :=
  0 ≤ px p < GRID_SIZE ∧ 0 ≤ py p < GRID_SIZE.

(** Two cells one step apart along one axis. *)
Definition adjacent (p q : Position) : Prop :=
  Z.abs (px p - px q) + Z.abs (py p - py q) = 1.

(** Every cell of the body touches the next one. *)
Fixpoint connected (l : list Position) : Prop :=
  match l with
  | p :: (q :: _) as l' => adjacent p q ∧ connected l'
  | _ => True
  end.

(** The heading opposite to a heading. *)
Definition reverse (d : Dir) : Dir :=
  match d with UP => DOWN | DOWN => UP | LEFT => RIGHT | RIGHT => LEFT end.

(** The coordinates of the builder's cells. *)
Definition builder_cells (b : list BuilderCell) : list Position :=
  (λ c, Pos (bx c) (by_ c)) <$> b.

(** No comma among the characters of a string. *)
Fixpoint comma_free (t : string) : Prop :=
  match t with
  | EmptyString => True
  | String c t' => c ≠ ","%char ∧ comma_free t'
  end.

(** The name a heading has in the scripts. *)
Definition Dir_name (d : Dir) : string :=
  match d with UP => "UP" | DOWN => "DOWN" | LEFT => "LEFT" | RIGHT => "RIGHT" end.

(** What every event keeps true of the live engine. *)
Definition engine_invariant (s : App) : Prop :=
  (3 ≤ length (snake s))%nat
  ∧ Z.of_nat (length (snake s)) = 3 + score s
  ∧ Forall in_grid (snake s)
  ∧ connected (snake s)
  ∧ NoDup (builder_cells (builder s))
  ∧ Forall in_grid (builder_cells (builder s))
  ∧ obstacles s = initialObstacles (builder s)
  ∧ Forall in_grid (foods s)
  ∧ (∀ p, p ∈ foods s → p ∉ obstacles s).

(** The state after the tick of [two_foods] that draws 169/396, and a
    finished game. *)
Definition after_two_foods : App :=
  default two_foods (game_loop (169 # 396) two_foods).

Definition finished_game : App := set_gameOver true two_foods.

(** The keys only the live handler and [useKeyDirection] know. *)
Definition letter_keys : list string :=
  ["w"; "W"; "a"; "A"; "s"; "S"; "d"; "D"].

(** * Properties *)

(** ** Cell comparison and array helpers *)

Lemma same_cell_true nx ny p : same_cell nx ny p = true ↔ p = Pos nx ny.
Proof.
  destruct p as [a b]; unfold same_cell; simpl.
  rewrite andb_true_iff, !Z.eqb_eq. split.
  - intros [-> ->]; reflexivity.
  - intros [= -> ->]; auto.
Qed.

Lemma some_cell_true nx ny l : some_cell nx ny l = true ↔ Pos nx ny ∈ l.
Proof.
  unfold some_cell. rewrite existsb_exists. split.
  - intros (p & Hin & Hp). apply same_cell_true in Hp as ->.
    by apply list_elem_of_In.
  - intros Hin. exists (Pos nx ny). split; [by apply list_elem_of_In|].
    by apply same_cell_true.
Qed.

Lemma some_cell_false nx ny l : some_cell nx ny l = false ↔ Pos nx ny ∉ l.
Proof.
  rewrite <- some_cell_true. destruct (some_cell nx ny l); split; congruence.
Qed.

Lemma findIndex_None {A} (f : A → bool) l :
  findIndex f l = None ↔ existsb f l = false.
Proof.
  induction l as [|a l IH]; simpl; [done|].
  destruct (f a); simpl; [split; discriminate|].
  rewrite <- IH. destruct (findIndex f l); simpl; split; congruence.
Qed.

Lemma findIndex_Some {A} (f : A → bool) l i :
  findIndex f l = Some i → ∃ a, l !! i = Some a ∧ f a = true.
Proof.
  revert i; induction l as [|a l IH]; intros i; simpl; [done|].
  destruct (f a) eqn:Hf.
  - intros [= <-]. eauto.
  - destruct (findIndex f l) as [j|]; simpl; [|done].
    intros [= <-]. destruct (IH j eq_refl) as (b & ? & ?). eauto.
Qed.

Lemma pop_cons_length {A} (a : A) l : length (pop (a :: l)) = length l.
Proof.
  unfold pop. rewrite removelast_firstn_len. simpl length.
  rewrite length_take. simpl. lia.
Qed.

Lemma pop_sublist {A} (l : list A) : sublist (pop l) l.
Proof.
  unfold pop. rewrite removelast_firstn_len. apply sublist_take.
Qed.

Lemma pop_cons_cons {A} (a b : A) l : pop (a :: b :: l) = a :: pop (b :: l).
Proof. reflexivity. Qed.

(** ** The direction a tick applies *)

Lemma candidate_delta h d :
  candidate h d = (px h + fst (delta d), py h + snd (delta d)).
Proof. destruct d; unfold candidate; simpl; f_equal; lia. Qed.

Lemma out_of_grid_true g nx ny :
  out_of_grid g nx ny = true ↔ ¬ (0 ≤ nx < g ∧ 0 ≤ ny < g).
Proof.
  unfold out_of_grid. rewrite !orb_true_iff, !Z.ltb_lt, !Z.geb_le. lia.
Qed.

(** ** Shape of one tick *)

Lemma tick_blocked r s h t nx ny :
  snake s = h :: t → candidate h (dir s) = (nx, ny) →
  blocked s nx ny = true → tick r s = Some (set_gameOver true s).
Proof.
  intros Hs Hc Hb. unfold tick. rewrite Hs, Hc. rewrite <- Hs.
  unfold blocked in Hb.
  destruct (out_of_grid GRID_SIZE nx ny); [done|].
  destruct (some_cell nx ny (snake s)); [done|].
  destruct (some_cell nx ny (obstacles s)); [done|discriminate].
Qed.

Lemma tick_move r s h t nx ny :
  snake s = h :: t → candidate h (dir s) = (nx, ny) →
  blocked s nx ny = false →
  findIndex (same_cell nx ny) (foods s) = None →
  tick r s = Some (set_snake (pop (Pos nx ny :: snake s)) s).
Proof.
  intros Hs Hc Hb Hf. unfold tick. rewrite Hs, Hc. rewrite <- Hs.
  unfold blocked in Hb. apply orb_false_iff in Hb as [Hb Ho].
  apply orb_false_iff in Hb as [Hw Hself].
  rewrite Hw, Hself, Ho, Hf. reflexivity.
Qed.

Lemma tick_eat r s h t nx ny i :
  snake s = h :: t → candidate h (dir s) = (nx, ny) →
  blocked s nx ny = false →
  findIndex (same_cell nx ny) (foods s) = Some i →
  ∃ s', tick r s = Some s'
    ∧ snake s' = Pos nx ny :: snake s
    ∧ score s' = score s + 1
    ∧ dir s' = dir s ∧ obstacles s' = obstacles s
    ∧ paused s' = paused s ∧ gameOver s' = gameOver s
    ∧ builder s' = builder s
    ∧ foods s' =
        delete i (foods s) ++
        match randomEmptyCell
                (list_to_set ((keyFor <$> Pos nx ny :: snake s)
                              ++ (keyFor <$> obstacles s)))
                GRID_SIZE r with
        | Some spawn => [spawn]
        | None => []
        end.
Proof.
  intros Hs Hc Hb Hf. unfold tick. rewrite Hs, Hc. rewrite <- Hs.
  unfold blocked in Hb. apply orb_false_iff in Hb as [Hb Ho].
  apply orb_false_iff in Hb as [Hw Hself].
  rewrite Hw, Hself, Ho, Hf.
  destruct (randomEmptyCell _ _ _) as [sp|];
    (eexists; split; [reflexivity|]); simpl;
    rewrite ?app_nil_r; repeat split; reflexivity.
Qed.

(** A tick on a non-empty snake always produces a state. *)
Lemma tick_total r s : snake s ≠ [] → is_Some (tick r s).
Proof.
  intros Hne. destruct (snake s) as [|h t] eqn:Hs; [done|].
  destruct (candidate h (dir s)) as [nx ny] eqn:Hc.
  destruct (blocked s nx ny) eqn:Hb.
  - rewrite (tick_blocked r s h t nx ny); eauto.
  - destruct (findIndex (same_cell nx ny) (foods s)) as [i|] eqn:Hf.
    + destruct (tick_eat r s h t nx ny i) as (s' & -> & _); eauto.
    + rewrite (tick_move r s h t nx ny); eauto.
Qed.

Lemma status_RUNNING s :
  status s = RUNNING ↔ paused s = false ∧ gameOver s = false.
Proof.
  unfold status. destruct (gameOver s), (paused s); split;
    (try discriminate); intros; try done; destruct H; discriminate.
Qed.

Lemma game_loop_running r s : status s = RUNNING → game_loop r s = tick r s.
Proof.
  intros [Hp Hg]%status_RUNNING. unfold game_loop. by rewrite Hp, Hg.
Qed.

(** ** Wall collision *)

(** C4: in a RUNNING state whose candidate head (head plus the delta of
    the pending direction) leaves [[0, GRID_SIZE)] on either axis, the
    tick produces a state in GAME_OVER whose snake, foods, score,
    obstacles and direction are those before the tick. *)
Theorem C4_wall_collision r s h t :
  status s = RUNNING →
  snake s = h :: t →
  ¬ (0 ≤ px h + fst (delta (dir s)) < GRID_SIZE
     ∧ 0 ≤ py h + snd (delta (dir s)) < GRID_SIZE) →
  ∃ s', game_loop r s = Some s'
    ∧ status s' = GAME_OVER
    ∧ snake s' = snake s ∧ foods s' = foods s ∧ score s' = score s
    ∧ obstacles s' = obstacles s ∧ dir s' = dir s.
Proof.
  intros Hrun Hs Hout. exists (set_gameOver true s).
  rewrite game_loop_running by done.
  split; [|by repeat split].
  eapply tick_blocked; [done|apply candidate_delta|].
  unfold blocked. apply out_of_grid_true in Hout. by rewrite Hout.
Qed.

Lemma C4_wall_collision_witness :
  ∃ s', game_loop 0 at_right_wall = Some s'
    ∧ status s' = GAME_OVER
    ∧ snake s' = snake at_right_wall ∧ foods s' = foods at_right_wall
    ∧ score s' = score at_right_wall
    ∧ obstacles s' = obstacles at_right_wall ∧ dir s' = dir at_right_wall.
Proof.
  apply (C4_wall_collision 0 at_right_wall (Pos 19 10) [Pos 18 10; Pos 17 10]).
  - reflexivity.
  - reflexivity.
  - unfold GRID_SIZE; simpl; lia.
Defined.

(** ** Snake length per tick *)

(** C5: a tick applied in the RUNNING state produces a state.  It ends
    in GAME_OVER exactly when the candidate head fails the wall, self or
    obstacle test; otherwise the state stays RUNNING and, when the
    candidate head is no food cell, the snake is the old one with the
    candidate head in front and the tail popped, of the same length,
    and the score is unchanged, while when it is a food cell the snake
    is the old one with the candidate head in front (one cell longer,
    tail kept) and the score is one more. *)
Theorem C5_length_per_tick r s h t nx ny :
  status s = RUNNING →
  snake s = h :: t →
  candidate h (dir s) = (nx, ny) →
  ∃ s', game_loop r s = Some s'
    ∧ if blocked s nx ny then status s' = GAME_OVER
      else status s' = RUNNING
           ∧ if some_cell nx ny (foods s)
             then snake s' = Pos nx ny :: snake s
                  ∧ length (snake s') = S (length (snake s))
                  ∧ score s' = score s + 1
             else snake s' = pop (Pos nx ny :: snake s)
                  ∧ length (snake s') = length (snake s)
                  ∧ score s' = score s.
Proof.
  intros Hrun Hs Hc. rewrite game_loop_running by done.
  pose proof Hrun as [Hp Hg]%status_RUNNING.
  destruct (blocked s nx ny) eqn:Hb.
  - exists (set_gameOver true s). split; [by eapply tick_blocked|done].
  - destruct (findIndex (same_cell nx ny) (foods s)) as [i|] eqn:Hf.
    + destruct (tick_eat r s h t nx ny i)
        as (s' & Ht & Hsn & Hsc & _ & _ & Hp' & Hg' & _); try done.
      exists s'. split; [done|].
      split; [apply status_RUNNING; by rewrite Hp', Hg'|].
      destruct (some_cell nx ny (foods s)) eqn:Hfood.
      * rewrite Hsn. by repeat split.
      * assert (findIndex (same_cell nx ny) (foods s) = None)
          by (by apply findIndex_None). congruence.
    + exists (set_snake (pop (Pos nx ny :: snake s)) s).
      split; [by eapply tick_move|]. split; [done|].
      apply findIndex_None in Hf. unfold some_cell. rewrite Hf.
      split; [done|]. split; [apply pop_cons_length|done].
Qed.

(** ** The five-tick fixture *)

Lemma run_step r rs s s' :
  game_loop r s = Some s' → run (r :: rs) s = run rs s'.
Proof.
  intros H. change (run (r :: rs) s) with (game_loop r s ≫= run rs).
  by rewrite H.
Qed.

Lemma run_last r s : run [r] s = game_loop r s.
Proof.
  change (run [r] s) with (game_loop r s ≫= Some). by destruct (game_loop r s).
Qed.

Lemma C5_length_per_tick_witness :
  (∃ s', game_loop 0 fixture_head_right = Some s'
     ∧ status s' = RUNNING
     ∧ snake s' = pop (Pos 11 10 :: snake fixture_head_right)
     ∧ length (snake s') = length (snake fixture_head_right)
     ∧ score s' = score fixture_head_right)
  ∧ (∃ s', game_loop 0 about_to_eat = Some s'
       ∧ status s' = RUNNING
       ∧ snake s' = Pos 15 10 :: snake about_to_eat
       ∧ length (snake s') = S (length (snake about_to_eat))
       ∧ score s' = score about_to_eat + 1).
Proof.
  split.
  - apply (C5_length_per_tick 0 fixture_head_right (Pos 10 10)
             [Pos 9 10; Pos 8 10] 11 10); reflexivity.
  - apply (C5_length_per_tick 0 about_to_eat (Pos 14 10)
             [Pos 13 10; Pos 12 10] 15 10); reflexivity.
Defined.

Example fixture_snake : snake fixture = [Pos 9 10; Pos 10 10; Pos 11 10].
Proof. reflexivity. Qed.

Example fixture_first_tick r :
  game_loop r fixture = Some (set_gameOver true fixture).
Proof. reflexivity. Qed.

(** On the fixture as C2 states it the first tick is a self-collision:
    the candidate head (10,10) is the second cell of the body, so the
    run is over with head (9,10), score 0 and length 3, not with head
    (15,10), score 1 and length 4. *)
Lemma C2_fixture_counterexample :
  run [0; 0; 0; 0; 0]%Q fixture = Some (set_gameOver true fixture)
  ∧ ¬ (∃ s', run [0; 0; 0; 0; 0]%Q fixture = Some s'
        ∧ head (snake s') = Some (Pos 15 10)
        ∧ score s' = 1
        ∧ length (snake s') = 4%nat).
Proof.
  split; [reflexivity|].
  intros (s' & Hrun & Hhead & _).
  vm_compute in Hrun. injection Hrun as <-. discriminate Hhead.
Qed.

(** C2, amended: from the snake [(10,10),(9,10),(8,10)] (head at index
    0), heading RIGHT on the grid of size 20, no obstacles and the food
    (15,10), five ticks with no direction input, whatever the draws,
    end RUNNING with head (15,10), score 1 and snake length 4. *)
Theorem C2_five_ticks rs :
  length rs = 5%nat →
  ∃ s', run rs fixture_head_right = Some s'
    ∧ status s' = RUNNING
    ∧ head (snake s') = Some (Pos 15 10)
    ∧ score s' = 1
    ∧ length (snake s') = 4%nat.
Proof.
  intros Hlen.
  destruct rs as [|r1 [|r2 [|r3 [|r4 [|r5 [|]]]]]]; try discriminate Hlen.
  set (s4 := set_snake [Pos 14 10; Pos 13 10; Pos 12 10] fixture).
  rewrite (run_step r1 _ fixture_head_right
             (set_snake [Pos 11 10; Pos 10 10; Pos 9 10] fixture))
    by reflexivity.
  rewrite (run_step r2 _ _ (set_snake [Pos 12 10; Pos 11 10; Pos 10 10] fixture))
    by reflexivity.
  rewrite (run_step r3 _ _ (set_snake [Pos 13 10; Pos 12 10; Pos 11 10] fixture))
    by reflexivity.
  rewrite (run_step r4 _ _ s4) by reflexivity.
  rewrite run_last.
  rewrite game_loop_running by reflexivity.
  destruct (tick_eat r5 s4 (Pos 14 10) [Pos 13 10; Pos 12 10] 15 10 0%nat)
    as (s' & -> & Hsn & Hsc & _ & _ & Hp & Hg & _); try reflexivity.
  exists s'. rewrite Hsn, Hsc. repeat split.
  unfold status. by rewrite Hg, Hp.
Qed.

Lemma C2_five_ticks_witness :
  ∃ s', run [0; 0; 0; 0; 0]%Q fixture_head_right = Some s'
    ∧ status s' = RUNNING
    ∧ head (snake s') = Some (Pos 15 10)
    ∧ score s' = 1
    ∧ length (snake s') = 4%nat.
Proof. apply (C2_five_ticks [0; 0; 0; 0; 0]%Q). reflexivity. Defined.

(** ** The live food spawner *)

Lemma random_below_range r n :
  unit_draw r → 0 < n → 0 ≤ random_below r n < n.
Proof.
  intros [Hlo Hhi] Hn. unfold random_below.
  assert (0 < inject_Z n)%Q as Hn'.
  { change (inject_Z 0 < inject_Z n)%Q. rewrite <- Zlt_Qlt. exact Hn. }
  split.
  - change 0 with (Qfloor 0). apply Qfloor_resp_le.
    apply Qmult_le_0_compat; [done|]. by apply Qlt_le_weak.
  - rewrite Zlt_Qlt.
    eapply Qle_lt_trans; [apply Qfloor_le|].
    rewrite <- (Qmult_1_l (inject_Z n)) at 2.
    by apply Qmult_lt_compat_r.
Qed.

Lemma elem_of_empty_cells occupied g p :
  p ∈ empty_cells occupied g
  ↔ 0 ≤ px p < g ∧ 0 ≤ py p < g ∧ keyFor p ∉ occupied.
Proof.
  unfold empty_cells. rewrite list_elem_of_bind. split.
  - intros (y & Hp & Hy). apply list_elem_of_bind in Hp as (x & Hp & Hx).
    apply elem_of_seqZ in Hx, Hy.
    destruct (decide (keyFor (Pos x y) ∈ occupied)).
    + by apply elem_of_nil in Hp.
    + apply list_elem_of_singleton in Hp as ->. simpl. split_and!; [lia..|done].
  - intros (Hx & Hy & Hk). destruct p as [x y]; simpl in *.
    exists y. split; [|apply elem_of_seqZ; lia].
    apply list_elem_of_bind. exists x. split; [|apply elem_of_seqZ; lia].
    rewrite decide_False by done. by apply list_elem_of_singleton.
Qed.

(** The live spawner returns a grid cell whose key is not in the
    occupied set. *)
Lemma randomEmptyCell_free occupied g r p :
  randomEmptyCell occupied g r = Some p →
  0 ≤ px p < g ∧ 0 ≤ py p < g ∧ keyFor p ∉ occupied.
Proof.
  unfold randomEmptyCell, js_index. intros H.
  destruct (decide (length _ = 0%nat)); [done|].
  destruct (decide (0 ≤ _)); [|done].
  apply list_elem_of_lookup_2 in H. by apply elem_of_empty_cells in H.
Qed.

(** With a draw in [[0, 1)] it returns nothing only on a full grid. *)
Lemma randomEmptyCell_None occupied g r :
  unit_draw r →
  randomEmptyCell occupied g r = None →
  ∀ x y, 0 ≤ x < g → 0 ≤ y < g → keyFor (Pos x y) ∈ occupied.
Proof.
  unfold randomEmptyCell, js_index. intros Hr H x y Hx Hy.
  destruct (decide (length (empty_cells occupied g) = 0%nat)) as [Hlen|Hlen].
  - apply nil_length_inv in Hlen.
    destruct (decide (keyFor (Pos x y) ∈ occupied)) as [|Hfree]; [done|].
    assert (Pos x y ∈ empty_cells occupied g) as Hin
      by (apply elem_of_empty_cells; done).
    rewrite Hlen in Hin. by apply elem_of_nil in Hin.
  - pose proof (random_below_range r (Z.of_nat (length (empty_cells occupied g)))
                  Hr ltac:(lia)) as Hrange.
    rewrite decide_True in H by lia.
    apply lookup_ge_None in H. lia.
Qed.

Lemma randomEmptyCell_Some occupied g r x y :
  unit_draw r → 0 ≤ x < g → 0 ≤ y < g → keyFor (Pos x y) ∉ occupied →
  is_Some (randomEmptyCell occupied g r).
Proof.
  intros Hr Hx Hy Hfree.
  destruct (randomEmptyCell occupied g r) eqn:E; [eauto|].
  destruct Hfree. eapply randomEmptyCell_None; eauto.
Qed.

(** ** The direction filter *)

Lemma accept_not_opposite c r : opposite c (accept c r) = false.
Proof. by destruct c, r. Qed.

Lemma accept_requested c r : opposite c r = false → accept c r = r.
Proof. unfold accept. by intros ->. Qed.

Lemma accept_rejected c r : opposite c r = true → accept c r = c.
Proof. unfold accept. by intros ->. Qed.

(** The live keyboard handler commits exactly what the filter accepts. *)
Lemma onKey_accept k s nd :
  key_dir k = Some nd → dir (onKey k s) = accept (dir s) nd.
Proof.
  intros Hk. unfold onKey, accept. rewrite Hk.
  destruct (opposite (dir s) nd); [done|]. by destruct nd.
Qed.

Lemma onKey_never_reverses k s : opposite (dir s) (dir (onKey k s)) = false.
Proof.
  destruct (key_dir k) as [nd|] eqn:Hk.
  - rewrite (onKey_accept k s nd Hk). apply accept_not_opposite.
  - unfold onKey. rewrite Hk. by destruct (dir s).
Qed.

(** The listener of the HTML export compares the object [dir] with
    string literals, so its reversal test never fires. *)
Lemma html_keydown_unfiltered k nd s :
  Html.key_map k = Some nd →
  Html.keydown k s =
    if bool_decide (nd = "UP") then Html.set_dir (Html.mkVec 0 (-1)) s
    else if bool_decide (nd = "DOWN") then Html.set_dir (Html.mkVec 0 1) s
    else if bool_decide (nd = "LEFT") then Html.set_dir (Html.mkVec (-1) 0) s
    else if bool_decide (nd = "RIGHT") then Html.set_dir (Html.mkVec 1 0) s
    else s.
Proof. intros Hk. unfold Html.keydown. rewrite Hk. reflexivity. Qed.

(** C3, evaluated on the HTML export: the live filter keeps UP when DOWN
    is requested and takes LEFT, but the embedded listener turns a snake
    heading UP, delta (0,-1), to DOWN, delta (0,1), on ArrowDown, and
    the freshly exported game, heading RIGHT, to LEFT on ArrowLeft. *)
Theorem C3_html_listener_reverses :
  accept UP DOWN = UP
  ∧ accept UP LEFT = LEFT
  ∧ Html.dir (Html.keydown "ArrowDown"
                (Html.set_dir (Html.mkVec 0 (-1)) html_start))
    = Html.mkVec 0 1
  ∧ Html.dir html_start = Html.mkVec 1 0
  ∧ Html.dir (Html.keydown "ArrowLeft" html_start) = Html.mkVec (-1) 0.
Proof. by repeat split. Qed.

(** ** Swipe input *)

(** C9, evaluated on a swipe: while heading RIGHT, a touch that moves 50
    pixels to the left commits LEFT, the exact opposite, which the
    filter would have replaced by RIGHT. *)
Theorem C9_swipe_reverses :
  dir initial = RIGHT
  ∧ dir swipe_left = LEFT
  ∧ opposite (dir initial) (dir swipe_left) = true
  ∧ accept (dir initial) LEFT = RIGHT.
Proof. by repeat split. Qed.

(** ** The spawn logic of the HTML export *)

Lemma html_draws_unit i : unit_draw (html_draws i).
Proof. unfold html_draws. by destruct (Nat.even i). Qed.

(** C6, evaluated on the HTML export: the snake eats the food at
    (11,10); the checked draw hits the occupied cell (11,10) and the
    unchecked fallback pushes (11,10) again, so the new food lies under
    the snake's head. *)
Theorem C6_html_spawn_on_snake :
  ∃ s', Html.step html_draws html_before_food = Some s'
    ∧ Html.gameOver s' = false
    ∧ Html.snake s' = [Pos 11 10; Pos 10 10; Pos 9 10; Pos 8 10]
    ∧ Html.foods s' = [Pos 11 10]
    ∧ keyFor (Pos 11 10) ∈@{gset string} list_to_set (keyFor <$> Html.snake s').
Proof.
  eexists. split; [vm_compute; reflexivity|].
  do 3 (split; [reflexivity|]).
  apply (bool_decide_unpack _). vm_compute. reflexivity.
Qed.

(** The checked draw itself sees only the first obstacle. *)
Example html_spawn_on_second_obstacle :
  Html.spawn GRID_SIZE
    (Html.add_spread (list_to_set (keyFor <$> [Pos 10 10]))
                     (keyFor <$> [Pos 0 0; Pos 11 10]))
    html_draws [] = [Pos 11 10].
Proof. by vm_compute. Qed.

(** ** The three engines side by side *)

Local Ltac both_return :=
  eexists _, _; split; [reflexivity|]; split; [reflexivity|];
  by repeat split.

(** The live tick and the HTML step do agree on every collision
    decision and on the snake they leave, whatever the draws. *)
Lemma live_html_agree r rs s :
  snake s ≠ [] →
  ∃ s' h', game_loop r s = Some s'
    ∧ Html.step rs (html_view s) = Some h'
    ∧ Html.gameOver h' = gameOver s'
    ∧ Html.paused h' = paused s'
    ∧ Html.snake h' = snake s'.
Proof.
  intros Hne. unfold game_loop, Html.step, html_view.
  cbn [Html.snake Html.dir Html.vx Html.vy Html.GRID Html.foods
       Html.obstacles Html.gameOver Html.paused].
  rewrite (orb_comm (gameOver s)).
  destruct (paused s || gameOver s) eqn:Hflags; [both_return|].
  destruct (snake s) as [|h t] eqn:Hs; [done|].
  pose proof (candidate_delta h (dir s)) as Hc.
  destruct (blocked s (px h + fst (delta (dir s))) (py h + snd (delta (dir s))))
    eqn:Hb.
  - rewrite (tick_blocked r s h t _ _ Hs Hc Hb).
    unfold blocked in Hb. rewrite Hs in Hb.
    destruct (out_of_grid _ _ _); [both_return|].
    destruct (some_cell _ _ (h :: t)); [both_return|].
    destruct (some_cell _ _ (obstacles s)); [both_return|done].
  - pose proof Hb as Hb'. unfold blocked in Hb'. rewrite Hs in Hb'.
    apply orb_false_iff in Hb' as [Hb' Ho].
    apply orb_false_iff in Hb' as [Hw Hself].
    rewrite Hw, Hself, Ho.
    destruct (findIndex _ (foods s)) as [i|] eqn:Hf.
    + destruct (tick_eat r s h t _ _ i Hs Hc Hb Hf)
        as (s' & -> & Hsn & _ & _ & _ & Hp & Hg & _).
      eexists _, _. split; [done|]. split; [done|].
      cbn [Html.set_body Html.gameOver Html.paused Html.snake html_view].
      by rewrite Hsn, Hp, Hg, Hs.
    + rewrite (tick_move r s h t _ _ Hs Hc Hb Hf).
      eexists _, _. split; [done|]. split; [done|].
      cbn [Html.set_body Html.gameOver Html.paused Html.snake html_view
           set_snake snake gameOver paused].
      by rewrite Hs.
Qed.

(** C1, evaluated where the engines part: with the obstacle (11,10) in
    front of the head (10,10), the live tick and the HTML step end the
    game, while the Python loop, which has no obstacle test, keeps
    running and moves the head onto the obstacle. *)
Theorem C1_python_ignores_obstacles :
  (∀ r, status <$> game_loop r before_obstacle = Some GAME_OVER)
  ∧ (∀ rs, Html.gameOver <$>
             Html.step rs (Html.exported GRID_SIZE (snake before_obstacle)
                             (foods before_obstacle)
                             (obstacles before_obstacle))
           = Some true)
  ∧ Py.snake (Py.init GRID_SIZE (foods before_obstacle)
                (obstacles before_obstacle))
    = [(10, 10); (9, 10); (8, 10)]
  ∧ ∃ s', Py.move GRID_SIZE (Py.init GRID_SIZE (foods before_obstacle)
                               (obstacles before_obstacle)) = Some s'
      ∧ Py.running s' = true
      ∧ Py.snake s' = [(11, 10); (10, 10); (9, 10)].
Proof.
  split; [by intros r|]. split; [by intros rs|]. split; [done|].
  eexists. split; [by vm_compute|]. by split.
Qed.

(** Past its game logic the same iteration fails in the drawing code,
    which subscripts the exported obstacle, a dict, with [[0]]. *)
Example python_draw_raises :
  Py.iteration GRID_SIZE (Py.init GRID_SIZE (foods before_obstacle)
                            (obstacles before_obstacle)) = None.
Proof. vm_compute. reflexivity. Qed.

(** ** Snake cells stay distinct and off the obstacles *)

Lemma NoDup_START_SNAKE : NoDup START_SNAKE.
Proof. apply (bool_decide_unpack _). by vm_compute. Qed.

Lemma onKey_body k s :
  snake (onKey k s) = snake s ∧ obstacles (onKey k s) = obstacles s.
Proof.
  unfold onKey. destruct (key_dir k) as [nd|]; [|done].
  destruct (opposite (dir s) nd); [done|]. by destruct nd.
Qed.

Lemma onTouchEnd_body p s :
  snake (onTouchEnd p s) = snake s ∧ obstacles (onTouchEnd p s) = obstacles s.
Proof.
  unfold onTouchEnd. destruct (touchStart s) as [t|]; [|done].
  repeat match goal with |- context [if ?b then _ else _] => destruct b end;
    done.
Qed.

Lemma tick_play_invariant r s s' :
  play_invariant s → tick r s = Some s' → play_invariant s'.
Proof.
  intros [[Hnd Hdis] Hstart] Ht.
  destruct (snake s) as [|h t] eqn:Hs; [unfold tick in Ht; by rewrite Hs in Ht|].
  destruct (candidate h (dir s)) as [nx ny] eqn:Hc.
  destruct (blocked s nx ny) eqn:Hb.
  - rewrite (tick_blocked r s h t nx ny) in Ht by done.
    injection Ht as <-. repeat split; simpl; by rewrite ?Hs.
  - pose proof Hb as Hb'. unfold blocked in Hb'.
    apply orb_false_iff in Hb' as [Hb' Ho]. apply orb_false_iff in Hb' as [_ Hself].
    apply some_cell_false in Ho, Hself.
    assert (NoDup (Pos nx ny :: snake s)) as Hnd'
      by (apply NoDup_cons; split; [done|by rewrite Hs]).
    assert (∀ p, p ∈ Pos nx ny :: snake s → p ∉ obstacles s) as Hdis'.
    { intros p [->|Hp]%elem_of_cons; [done|]. apply Hdis. by rewrite <- Hs. }
    destruct (findIndex (same_cell nx ny) (foods s)) as [i|] eqn:Hf.
    + destruct (tick_eat r s h t nx ny i)
        as (s1 & Ht1 & Hsn & _ & _ & Hob & _); try done.
      rewrite Ht1 in Ht. injection Ht as <-.
      unfold play_invariant, well_placed. rewrite Hsn, Hob. done.
    + rewrite (tick_move r s h t nx ny) in Ht by done.
      injection Ht as <-. unfold play_invariant, well_placed.
      cbn [snake obstacles set_snake].
      split_and!; [|intros p Hp|done].
      * apply (sublist_NoDup (pop (Pos nx ny :: snake s)) (Pos nx ny :: snake s));
          [exact Hnd'|apply pop_sublist].
      * apply Hdis'.
        apply (elem_of_sublist (pop (Pos nx ny :: snake s)) _ p Hp), pop_sublist.
Qed.

Lemma handle_play_invariant e s s' :
  play_event e → handle e s = Some s' → play_invariant s → play_invariant s'.
Proof.
  intros He Hh Hinv. destruct e; simpl in *; try done;
    try (injection Hh as <-).
  - unfold game_loop in Hh. destruct (paused s || gameOver s).
    + by injection Hh as <-.
    + by eapply tick_play_invariant.
  - unfold play_invariant, well_placed.
    by destruct (onKey_body k s) as [-> ->].
  - done.
  - unfold play_invariant, well_placed.
    by destruct (onTouchEnd_body p s) as [-> ->].
  - done.
  - destruct Hinv as [_ Hstart]. repeat split; simpl; try done.
    apply NoDup_START_SNAKE.
Qed.

Lemma reaches_play_invariant s0 s :
  play_invariant s0 → reaches play_event s0 s → play_invariant s.
Proof.
  intros H0. induction 1 as [|s e s' _ IH He Hh]; [done|].
  by eapply handle_play_invariant.
Qed.

(** The builder does not look at the snake: one press of Add Obstacle
    on the freshly mounted game gives a RUNNING state in which the
    snake cell (10,10) is an obstacle cell. *)
Lemma C7_center_obstacle_counterexample :
  reachable center_obstacle
  ∧ status center_obstacle = RUNNING
  ∧ Pos 10 10 ∈ snake center_obstacle
  ∧ Pos 10 10 ∈ obstacles center_obstacle
  ∧ ¬ well_placed center_obstacle.
Proof.
  assert (Pos 10 10 ∈ snake center_obstacle) as Hs
    by (apply (bool_decide_unpack _); by vm_compute).
  assert (Pos 10 10 ∈ obstacles center_obstacle) as Ho
    by (apply (bool_decide_unpack _); by vm_compute).
  split_and!; try done.
  - eapply (reaches_step _ _ initial (AddToBuilder obstacle));
      [apply reaches_here|done|done].
  - intros [_ Hdis]. by apply (Hdis (Pos 10 10)).
Qed.

Lemma tick_NoDup r s s' :
  tick r s = Some s' → NoDup (snake s) → NoDup (snake s').
Proof.
  intros Ht Hnd.
  destruct (snake s) as [|h t] eqn:Hs; [unfold tick in Ht; by rewrite Hs in Ht|].
  destruct (candidate h (dir s)) as [nx ny] eqn:Hc.
  destruct (blocked s nx ny) eqn:Hb.
  - rewrite (tick_blocked r s h t nx ny) in Ht by done.
    assert (set_gameOver true s = s') as <- by congruence.
    cbn [set_gameOver snake]. by rewrite Hs.
  - pose proof Hb as Hb'. unfold blocked in Hb'.
    apply orb_false_iff in Hb' as [Hb' _].
    apply orb_false_iff in Hb' as [_ Hself].
    apply some_cell_false in Hself.
    assert (NoDup (Pos nx ny :: snake s)) as Hnd'
      by (apply NoDup_cons; split; [done|by rewrite Hs]).
    destruct (findIndex (same_cell nx ny) (foods s)) as [i|] eqn:Hf.
    + destruct (tick_eat r s h t nx ny i) as (s1 & Ht1 & Hsn & _); try done.
      assert (s1 = s') as <- by congruence. by rewrite Hsn.
    + rewrite (tick_move r s h t nx ny) in Ht by done.
      assert (set_snake (pop (Pos nx ny :: snake s)) s = s') as <-
        by congruence.
      apply (sublist_NoDup (pop (Pos nx ny :: snake s)) (Pos nx ny :: snake s));
        [exact Hnd'|apply pop_sublist].
Qed.

Lemma builder_event_body e s s' :
  deliverable e → ¬ play_event e → handle e s = Some s' →
  snake s' = snake s.
Proof.
  intros Hd Hnp Hh. destruct e; simpl in *; try done;
    injection Hh as <-.
  - unfold addToBuilder. by destruct (builder_has _ _ _).
  - unfold onDrop.
    repeat match goal with |- context [if ?b then _ else _] => destruct b end;
      done.
  - done.
Qed.

Lemma handle_NoDup e s s' :
  handle e s = Some s' → NoDup (snake s) → NoDup (snake s').
Proof.
  intros Hh Hnd. destruct e; simpl in Hh; try (injection Hh as <-).
  - unfold game_loop in Hh. destruct (paused s || gameOver s).
    + by injection Hh as <-.
    + by eapply tick_NoDup.
  - by destruct (onKey_body k s) as [-> _].
  - done.
  - by destruct (onTouchEnd_body p s) as [-> _].
  - done.
  - apply NoDup_START_SNAKE.
  - unfold addToBuilder. by destruct (builder_has _ _ _).
  - unfold onDrop.
    repeat match goal with |- context [if ?b then _ else _] => destruct b end;
      done.
  - done.
Qed.

Lemma reachable_NoDup s : reachable s → NoDup (snake s).
Proof.
  induction 1 as [|s e s' _ IH _ Hh]; [apply NoDup_START_SNAKE|].
  by eapply handle_NoDup.
Qed.

Lemma reachable_clear_reachable s : reachable_clear s → reachable s.
Proof.
  induction 1 as [|s e s' _ IH Hd _ Hh]; [apply reaches_here|].
  by eapply reaches_step.
Qed.

Lemma play_event_dec e : deliverable e → play_event e ∨ ¬ play_event e.
Proof. destruct e; simpl; tauto. Qed.

Lemma reachable_clear_play_invariant s :
  reachable_clear s → play_invariant s.
Proof.
  induction 1 as [|s e s' Hreach IH Hd Hguard Hh].
  - repeat split; simpl; [apply NoDup_START_SNAKE| |];
      intros p _; apply not_elem_of_nil.
  - destruct (play_event_dec e Hd) as [Hplay|Hedit].
    + by eapply handle_play_invariant.
    + pose proof (builder_event_body e s s' Hd Hedit Hh) as Hsn.
      destruct IH as [[Hnodup Hdis] Hstart].
      unfold play_invariant, well_placed. rewrite Hsn.
      split; [split; [done|]|]; intros p Hp Ho;
        destruct (decide (p ∈ obstacles s)) as [Hold|Hnew];
        try (by eapply Hdis); try (by eapply Hstart);
        destruct (Hguard s' p Hh Ho Hnew) as [H1 H2]; done.
Qed.

(** Ticks, keys, swipes, pause and restart leave the obstacles alone. *)
Lemma handle_play_obstacles e s s' :
  play_event e → handle e s = Some s' → obstacles s' = obstacles s.
Proof.
  intros He Hh. destruct e; simpl in *; try done; try (injection Hh as <-).
  - unfold game_loop in Hh. destruct (paused s || gameOver s);
      [by injection Hh as <-|].
    destruct (snake s) as [|h t] eqn:Hs;
      [unfold tick in Hh; by rewrite Hs in Hh|].
    destruct (candidate h (dir s)) as [nx ny] eqn:Hc.
    destruct (blocked s nx ny) eqn:Hb.
    { rewrite (tick_blocked r s h t nx ny) in Hh by done.
      by assert (set_gameOver true s = s') as <- by congruence. }
    destruct (findIndex (same_cell nx ny) (foods s)) as [i|] eqn:Hf.
    + destruct (tick_eat r s h t nx ny i)
        as (s1 & Ht1 & _ & _ & _ & Hob & _); try done.
      by assert (s1 = s') as <- by congruence.
    + rewrite (tick_move r s h t nx ny) in Hh by done.
      by assert (set_snake (pop (Pos nx ny :: snake s)) s = s') as <-
        by congruence.
  - by destruct (onKey_body k s) as [_ ->].
  - done.
  - by destruct (onTouchEnd_body p s) as [_ ->].
  - done.
  - done.
Qed.

Lemma play_event_guard e s : play_event e → adds_no_obstacle_on_snake e s.
Proof.
  intros He s' p Hh Hin Hnot.
  rewrite (handle_play_obstacles e s s' He Hh) in Hin. done.
Qed.

Lemma reachable_center_obstacle : reachable center_obstacle.
Proof.
  eapply (reaches_step _ _ initial (AddToBuilder obstacle));
    [apply reaches_here|done|done].
Qed.

(** An obstacle dropped off the snake, a food, one key and one timer
    firing: no event put an obstacle on the snake. *)
Lemma reachable_clear_turned_up : reachable_clear turned_up.
Proof.
  apply (clear_step (onKey "ArrowUp" (mount [Cell 15 10 food; Cell 3 3 obstacle]))
           (Tick 0)).
  - apply (clear_step (mount [Cell 15 10 food; Cell 3 3 obstacle])
             (Key "ArrowUp")).
    + apply (clear_step (mount [Cell 15 10 food]) (Drop obstacle 3 3)).
      * apply (clear_step initial (Drop food 15 10));
          [apply clear_initial|exact I| |reflexivity].
        intros s' p [= <-] Hin _. by apply elem_of_nil in Hin.
      * exact I.
      * intros s' p [= <-] Hin _.
        apply list_elem_of_singleton in Hin as ->.
        split; apply (bool_decide_unpack _); vm_compute; reflexivity.
      * reflexivity.
    + exact I.
    + by apply play_event_guard.
    + reflexivity.
  - split; [discriminate|reflexivity].
  - apply play_event_guard. split; [discriminate|reflexivity].
  - reflexivity.
Qed.

(** Restart does not look at the obstacles either: an obstacle dropped
    on a cell the snake has left, off the current snake, lies under the
    snake after Restart. *)
Example restart_onto_obstacle :
  reachable obstacle_on_start
  ∧ snake moved_away = [Pos 9 8; Pos 9 9; Pos 9 10]
  ∧ obstacles (onDrop obstacle 11 10 moved_away) = [Pos 11 10]
  ∧ status obstacle_on_start = RUNNING
  ∧ Pos 11 10 ∈ snake obstacle_on_start
  ∧ Pos 11 10 ∈ obstacles obstacle_on_start.
Proof.
  split_and!; try (vm_compute; reflexivity);
    try (apply (bool_decide_unpack _); vm_compute; reflexivity).
  apply (reaches_step _ _ (onDrop obstacle 11 10 moved_away) Restart);
    [|exact I|reflexivity].
  apply (reaches_step _ _ moved_away (Drop obstacle 11 10));
    [|exact I|reflexivity].
  apply (reaches_step _ _ turned_once (Tick 0));
    [|split; [discriminate|reflexivity]|vm_compute; reflexivity].
  apply (reaches_step _ _ (onKey "ArrowUp" initial) (Tick 0));
    [|split; [discriminate|reflexivity]|vm_compute; reflexivity].
  apply (reaches_step _ _ initial (Key "ArrowUp"));
    [apply reaches_here|exact I|reflexivity].
Qed.

(** C7, amended: in every reachable state, builder edits included, no
    two snake cells are equal; in every state reached by events none of
    which puts a new obstacle on a cell of the current snake or of the
    initial snake, no snake cell is an obstacle cell; and a RUNNING
    snake of length 1 whose candidate head is inside the grid and on no
    obstacle is still RUNNING after the tick, whatever its direction. *)
Theorem C7_snake_distinct_and_off_obstacles s1 s2 :
  reachable s1 →
  reachable_clear s2 →
  NoDup (snake s1)
  ∧ (∀ p, p ∈ snake s2 → p ∉ obstacles s2)
  ∧ (∀ r s h nx ny,
       status s = RUNNING → snake s = [h] →
       candidate h (dir s) = (nx, ny) →
       out_of_grid GRID_SIZE nx ny = false →
       some_cell nx ny (obstacles s) = false →
       ∃ s', game_loop r s = Some s' ∧ status s' = RUNNING).
Proof.
  intros Hreach Hclear. split; [by apply reachable_NoDup|]. split.
  - by destruct (reachable_clear_play_invariant s2 Hclear) as [[_ Hdis] _].
  - intros r s h nx ny Hrun Hs Hc Hw Ho.
    rewrite game_loop_running by done.
    assert (blocked s nx ny = false) as Hbl.
    { unfold blocked. rewrite Hw, Ho, Hs. simpl.
      rewrite !orb_false_r. unfold same_cell.
      rewrite candidate_delta in Hc. injection Hc as <- <-.
      destruct (dir s); simpl; lia. }
    apply status_RUNNING in Hrun as [Hp Hg].
    destruct (findIndex (same_cell nx ny) (foods s)) as [i|] eqn:Hf.
    + destruct (tick_eat r s h [] nx ny i)
        as (s' & Ht & _ & _ & _ & _ & Hp' & Hg' & _); try done.
      exists s'. split; [done|]. apply status_RUNNING. by rewrite Hp', Hg'.
    + rewrite (tick_move r s h [] nx ny) by done.
      eexists. split; [done|]. by apply status_RUNNING.
Qed.

Lemma C7_snake_distinct_and_off_obstacles_witness :
  NoDup (snake center_obstacle)
  ∧ (∀ p, p ∈ snake turned_up → p ∉ obstacles turned_up)
  ∧ (∀ r s h nx ny,
       status s = RUNNING → snake s = [h] →
       candidate h (dir s) = (nx, ny) →
       out_of_grid GRID_SIZE nx ny = false →
       some_cell nx ny (obstacles s) = false →
       ∃ s', game_loop r s = Some s' ∧ status s' = RUNNING).
Proof.
  apply (C7_snake_distinct_and_off_obstacles center_obstacle turned_up).
  - apply reachable_center_obstacle.
  - apply reachable_clear_turned_up.
Defined.

(** ** Restart *)

Lemma reachable_after_meal : reachable after_meal.
Proof.
  eapply (reaches_step _ _ one_food (Tick 0)).
  - eapply (reaches_step _ _ (onDrop food 9 9 initial) (Key "ArrowUp")).
    + eapply (reaches_step _ _ initial (Drop food 9 9));
        [apply reaches_here|exact I|reflexivity].
    + exact I.
    + reflexivity.
  - split; [discriminate|reflexivity].
  - vm_compute. reflexivity.
Qed.

(** Restart pressed while paused leaves the game PAUSED, and pressed
    after a meal leaves the spawned food (0,0) in place of the builder's
    food (9,9). *)
Lemma C8_restart_counterexample :
  reachable paused_game
  ∧ status paused_game = PAUSED
  ∧ status (restart paused_game) = PAUSED
  ∧ reachable after_meal
  ∧ foods (restart after_meal) = [Pos 0 0]
  ∧ initialFoods (builder (restart after_meal)) = [Pos 9 9]
  ∧ ¬ (∀ s, status (restart s) = RUNNING
            ∧ snake (restart s) = START_SNAKE
            ∧ foods (restart s) = initialFoods (builder s)
            ∧ score (restart s) = 0).
Proof.
  split_and!; try reflexivity.
  - eapply (reaches_step _ _ initial TogglePause);
      [apply reaches_here|exact I|reflexivity].
  - apply reachable_after_meal.
  - intros H. destruct (H paused_game) as [Hst _]. discriminate Hst.
Qed.

(** C8, amended: from any state Restart sets the snake to the initial
    snake, the direction to RIGHT and the score to 0 and clears game
    over; it leaves the foods, the obstacles, the builder and the pause
    flag as they are, so the run is RUNNING afterwards exactly when it
    was not paused, and PAUSED otherwise. *)
Theorem C8_restart s :
  snake (restart s) = START_SNAKE
  ∧ dir (restart s) = RIGHT
  ∧ score (restart s) = 0
  ∧ gameOver (restart s) = false
  ∧ foods (restart s) = foods s
  ∧ obstacles (restart s) = obstacles s
  ∧ builder (restart s) = builder s
  ∧ paused (restart s) = paused s
  ∧ status (restart s) = (if paused s then PAUSED else RUNNING).
Proof. by repeat split. Qed.

(** ** A spawned food on top of a remaining food *)

Lemma reachable_two_foods : reachable two_foods.
Proof.
  eapply (reaches_step _ _ (onDrop food 9 8 (onDrop food 9 9 initial))
            (Key "ArrowUp")).
  - eapply (reaches_step _ _ (onDrop food 9 9 initial) (Drop food 9 8)).
    + eapply (reaches_step _ _ initial (Drop food 9 9));
        [apply reaches_here|exact I|reflexivity].
    + exact I.
    + reflexivity.
  - exact I.
  - reflexivity.
Qed.

(** C10: the state [two_foods] is reachable and RUNNING with the two
    distinct foods (9,9) and (9,8); the tick that eats (9,9) calls the
    spawner with the keys of the new snake and the obstacles only, and
    with the draw 169/396 the spawner returns (9,8), the remaining food,
    so that the foods after the tick are (9,8) twice. *)
Theorem C10_spawn_on_remaining_food :
  reachable two_foods
  ∧ status two_foods = RUNNING
  ∧ foods two_foods = [Pos 9 9; Pos 9 8]
  ∧ unit_draw (169 # 396)
  ∧ randomEmptyCell
      (list_to_set
         ((keyFor <$> Pos 9 9 :: snake two_foods)
          ++ (keyFor <$> obstacles two_foods)))
      GRID_SIZE (169 # 396) = Some (Pos 9 8)
  ∧ ∃ s', game_loop (169 # 396) two_foods = Some s'
      ∧ status s' = RUNNING
      ∧ score s' = 1
      ∧ foods s' = [Pos 9 8; Pos 9 8].
Proof.
  split; [apply reachable_two_foods|].
  split; [reflexivity|]. split; [reflexivity|].
  split; [split; [discriminate|reflexivity]|].
  split; [vm_compute; reflexivity|].
  eexists. split; [vm_compute; reflexivity|].
  by repeat split.
Qed.

(** * Further properties of the code *)

(** ** [clamp] *)

Local Ltac qc_order :=
  repeat match goal with
         | H : ¬ (_ ≤ _)%Qc |- _ => apply Qcnot_le_lt in H
         | |- Num _ = Num _ => f_equal
         | |- @eq Qc _ _ => apply Qc_is_canon
         | |- ¬ (_ ≤ _)%Qc => apply Qclt_not_le
         end;
  unfold Qcle, Qclt in *; simpl in *; try lra.

Local Ltac clamp_cases :=
  unfold clamp, Math_max, Math_min, number_le;
  repeat (simpl in *; case_bool_decide);
  try done; try congruence; try qc_order.

(** X1: with ordered bounds, [a <= b], [clamp] of [NaN] is [NaN]; of
    any other number it is a value between the bounds, the argument
    itself when it already lies between them, and clamping twice is
    clamping once. *)
Theorem clamp_between n a b :
  number_le a b = true →
  if decide (n = NaN) then clamp n a b = NaN
  else number_le a (clamp n a b) = true
       ∧ number_le (clamp n a b) b = true
       ∧ (number_le a n = true → number_le n b = true → clamp n a b = n)
       ∧ clamp (clamp n a b) a b = clamp n a b.
Proof.
  intros Hab. destruct (decide (n = NaN)) as [->|Hn].
  - destruct a, b; done.
  - destruct n, a, b; try done; revert Hab; clamp_cases.
    all: repeat split; intros; clamp_cases.
Qed.

Lemma clamp_between_witness :
  (number_le (Num (Q2Qc 0)) (clamp (Num (Q2Qc 25)) (Num (Q2Qc 0)) (Num (Q2Qc 19)))
   = true
   ∧ number_le (clamp (Num (Q2Qc 25)) (Num (Q2Qc 0)) (Num (Q2Qc 19)))
       (Num (Q2Qc 19)) = true
   ∧ (number_le (Num (Q2Qc 0)) (Num (Q2Qc 25)) = true →
      number_le (Num (Q2Qc 25)) (Num (Q2Qc 19)) = true →
      clamp (Num (Q2Qc 25)) (Num (Q2Qc 0)) (Num (Q2Qc 19)) = Num (Q2Qc 25))
   ∧ clamp (clamp (Num (Q2Qc 25)) (Num (Q2Qc 0)) (Num (Q2Qc 19)))
       (Num (Q2Qc 0)) (Num (Q2Qc 19))
     = clamp (Num (Q2Qc 25)) (Num (Q2Qc 0)) (Num (Q2Qc 19)))
  ∧ clamp NaN (Num (Q2Qc 0)) (Num (Q2Qc 19)) = NaN.
Proof.
  split.
  - apply (clamp_between (Num (Q2Qc 25)) (Num (Q2Qc 0)) (Num (Q2Qc 19))).
    reflexivity.
  - apply (clamp_between NaN (Num (Q2Qc 0)) (Num (Q2Qc 19))). reflexivity.
Defined.

(** X2: when [a <= b] is false, [clamp] returns [NaN] if one of its
    three arguments is [NaN] and the lower bound [a] otherwise, for
    every argument [n]. *)
Theorem clamp_inverted_bounds n a b :
  number_le a b = false →
  clamp n a b = if decide (n = NaN ∨ a = NaN ∨ b = NaN) then NaN else a.
Proof.
  intros Hab. case_decide as H.
  - destruct n, a, b; try done; destruct H as [?|[?|?]]; done.
  - destruct n, a, b; try (destruct H; auto; fail); clear H;
      revert Hab; clamp_cases.
Qed.

Lemma clamp_inverted_bounds_witness :
  clamp (Num (Q2Qc 7)) (Num (Q2Qc 10)) (Num (Q2Qc 5)) = Num (Q2Qc 10)
  ∧ clamp (Num (Q2Qc 7)) NaN (Num (Q2Qc 5)) = NaN.
Proof.
  split.
  - apply (clamp_inverted_bounds (Num (Q2Qc 7)) (Num (Q2Qc 10)) (Num (Q2Qc 5))).
    reflexivity.
  - apply (clamp_inverted_bounds (Num (Q2Qc 7)) NaN (Num (Q2Qc 5))).
    reflexivity.
Defined.

(** ** Cell keys *)

Lemma pretty_N_char_comma x : pretty_N_char x ≠ ","%char.
Proof. unfold pretty_N_char. by repeat case_match. Qed.

Lemma pretty_N_go_comma_free x t :
  comma_free t → comma_free (pretty_N_go x t).
Proof.
  revert t. induction (N.lt_wf_0 x) as [x _ IH]; intros t Ht.
  destruct (decide (x = 0%N)) as [->|Hx]; [by rewrite pretty_N_go_0|].
  rewrite pretty_N_go_step by lia. apply IH.
  - apply N.div_lt; lia.
  - split; [apply pretty_N_char_comma|done].
Qed.

Lemma pretty_positive_comma_free (p : positive) : comma_free (pretty p).
Proof.
  unfold pretty, pretty_positive, pretty, pretty_N.
  case_decide; [by compute|]. by apply pretty_N_go_comma_free.
Qed.

Lemma pretty_Z_comma_free (z : Z) : comma_free (pretty z).
Proof.
  destruct z as [|p|p]; unfold pretty, pretty_Z.
  - by compute.
  - apply pretty_positive_comma_free.
  - split; [discriminate|apply pretty_positive_comma_free].
Qed.

Lemma comma_split s1 s2 t1 t2 :
  comma_free s1 → comma_free t1 →
  s1 +:+ String "," s2 = t1 +:+ String "," t2 → s1 = t1 ∧ s2 = t2.
Proof.
  revert t1. induction s1 as [|c s1 IH]; intros [|d t1]; simpl.
  - intros _ _ [= ->]. done.
  - intros _ [Hd _] [= <- _]. done.
  - intros [Hc _] _ [= -> _]. done.
  - intros [_ Hs] [_ Ht] [= -> Heq].
    destruct (IH t1 Hs Ht Heq) as [-> ->]. done.
Qed.

Lemma key_components (x1 y1 x2 y2 : Z) :
  pretty x1 +:+ "," +:+ pretty y1 = pretty x2 +:+ "," +:+ pretty y2 →
  x1 = x2 ∧ y1 = y2.
Proof.
  intros H.
  apply comma_split in H as [Hx Hy]; try apply pretty_Z_comma_free.
  apply (inj pretty) in Hx, Hy. done.
Qed.

Lemma keyFor_eq_inv p q : keyFor p = keyFor q → p = q.
Proof.
  destruct p as [x1 y1], q as [x2 y2]. unfold keyFor. cbn [px py].
  intros H. apply key_components in H as [-> ->]. reflexivity.
Qed.

(** X3: two cells with the same key are the same cell, so a set of keys
    stands for a set of cells. *)
Theorem keyFor_inj p q : keyFor p = keyFor q → p = q.
Proof.
  destruct p as [x1 y1], q as [x2 y2]. unfold keyFor. cbn [px py].
  intros H. apply key_components in H as [Hx Hy]. by subst.
Qed.

Lemma keyFor_inj_witness : Pos 3 (-4) = Pos 3 (-4).
Proof. apply (keyFor_inj (Pos 3 (-4)) (Pos 3 (-4))). reflexivity. Defined.

Lemma elem_of_keys p (l : list Position) :
  keyFor p ∈@{gset string} list_to_set (keyFor <$> l) ↔ p ∈ l.
Proof.
  rewrite elem_of_list_to_set, list_elem_of_fmap. split.
  - intros (q & Hk & Hq). by apply keyFor_eq_inv in Hk as ->.
  - intros Hp. by exists p.
Qed.

(** ** The live spawner on sets of cells *)

Lemma empty_cells_nil occupied g :
  empty_cells occupied g = []
  ↔ ∀ x y, 0 ≤ x < g → 0 ≤ y < g → keyFor (Pos x y) ∈ occupied.
Proof.
  split.
  - intros Hnil x y Hx Hy.
    destruct (decide (keyFor (Pos x y) ∈ occupied)) as [|Hfree]; [done|].
    assert (Pos x y ∈ empty_cells occupied g) as Hin
      by (apply elem_of_empty_cells; done).
    rewrite Hnil in Hin. by apply elem_of_nil in Hin.
  - intros Hfull. destruct (empty_cells occupied g) as [|p l] eqn:E; [done|].
    assert (p ∈ empty_cells occupied g) as Hin by (rewrite E; left).
    apply elem_of_empty_cells in Hin as (Hx & Hy & Hfree).
    destruct Hfree. destruct p as [x y]. by apply Hfull.
Qed.

(** X4: the candidates of the spawner are the free cells of the grid,
    each listed exactly once. *)
Theorem empty_cells_exactly_free occupied g :
  NoDup (empty_cells occupied g)
  ∧ ∀ p, p ∈ empty_cells occupied g
         ↔ 0 ≤ px p < g ∧ 0 ≤ py p < g ∧ keyFor p ∉ occupied.
Proof.
  split; [|intros p; apply elem_of_empty_cells].
  unfold empty_cells. apply NoDup_bind; [| |apply NoDup_seqZ].
  - intros y1 y2 p _ _ H1 H2.
    apply list_elem_of_bind in H1 as (x1 & H1 & _).
    apply list_elem_of_bind in H2 as (x2 & H2 & _).
    destruct (decide (_ ∈ occupied)); [by apply elem_of_nil in H1|].
    destruct (decide (_ ∈ occupied)); [by apply elem_of_nil in H2|].
    apply list_elem_of_singleton in H1, H2. congruence.
  - intros y _. apply NoDup_bind; [| |apply NoDup_seqZ].
    + intros x1 x2 p _ _ H1 H2.
      destruct (decide (_ ∈ occupied)); [by apply elem_of_nil in H1|].
      destruct (decide (_ ∈ occupied)); [by apply elem_of_nil in H2|].
      apply list_elem_of_singleton in H1, H2. congruence.
    + intros x _. destruct (decide (_ ∈ occupied)); [constructor|].
      apply NoDup_singleton.
Qed.

(** X5: called with the keys of a list of cells, the spawner returns a
    cell of the grid that is none of these cells. *)
Theorem spawner_avoids_cells (l : list Position) g r p :
  randomEmptyCell (list_to_set (keyFor <$> l)) g r = Some p →
  0 ≤ px p < g ∧ 0 ≤ py p < g ∧ p ∉ l.
Proof.
  intros H. apply randomEmptyCell_free in H as (Hx & Hy & Hfree).
  split; [done|]. split; [done|].
  intros Hin. apply Hfree. by apply elem_of_keys.
Qed.

Lemma spawner_avoids_cells_witness :
  0 ≤ px (Pos 1 0) < 2 ∧ 0 ≤ py (Pos 1 0) < 2
  ∧ Pos 1 0 ∉ [Pos 0 0; Pos 1 1].
Proof.
  apply (spawner_avoids_cells [Pos 0 0; Pos 1 1] 2 0 (Pos 1 0)).
  vm_compute. reflexivity.
Defined.

(** X6: with a draw in [[0, 1)] the spawner returns nothing exactly
    when every cell of the grid is one of the occupied cells; a grid of
    size 0 or less is such a grid. *)
Theorem spawner_none_iff_full (l : list Position) g r :
  unit_draw r →
  (randomEmptyCell (list_to_set (keyFor <$> l)) g r = None
   ↔ ∀ x y, 0 ≤ x < g → 0 ≤ y < g → Pos x y ∈ l).
Proof.
  intros Hr. split.
  - intros H x y Hx Hy. apply elem_of_keys.
    by apply (randomEmptyCell_None _ g r Hr H).
  - intros Hfull. unfold randomEmptyCell.
    assert (empty_cells (list_to_set (keyFor <$> l)) g = []) as ->; [|done].
    apply empty_cells_nil. intros x y Hx Hy. apply elem_of_keys. by apply Hfull.
Qed.

Lemma spawner_none_iff_full_witness :
  randomEmptyCell (list_to_set (keyFor <$> [Pos 0 0])) 1 (1 # 2) = None
  ↔ ∀ x y, 0 ≤ x < 1 → 0 ≤ y < 1 → Pos x y ∈ [Pos 0 0].
Proof.
  apply (spawner_none_iff_full [Pos 0 0] 1 (1 # 2)).
  split; [discriminate|reflexivity].
Defined.

Lemma draw_selects (i : nat) (n : nat) :
  (i < n)%nat →
  let r := (Z.of_nat i # Z.to_pos (Z.of_nat n))%Q in
  unit_draw r ∧ random_below r (Z.of_nat n) = Z.of_nat i.
Proof.
  intros Hi r.
  assert (Z.pos (Z.to_pos (Z.of_nat n)) = Z.of_nat n) as Hpos
    by (apply Z2Pos.id; lia).
  split; [split|].
  - unfold r, Qle; simpl. lia.
  - unfold r, Qlt; simpl. lia.
  - unfold random_below.
    assert (r * inject_Z (Z.of_nat n) == inject_Z (Z.of_nat i))%Q as ->.
    { unfold r, Qeq, Qmult, inject_Z; simpl. rewrite Pos.mul_1_r, Hpos. ring. }
    apply Qfloor_Z.
Qed.

(** X7: every free cell of the grid can be spawned: some draw in
    [[0, 1)] makes the spawner return it. *)
Theorem spawner_reaches_every_free_cell occupied g p :
  0 ≤ px p < g → 0 ≤ py p < g → keyFor p ∉ occupied →
  ∃ r, unit_draw r ∧ randomEmptyCell occupied g r = Some p.
Proof.
  intros Hx Hy Hfree.
  assert (p ∈ empty_cells occupied g) as Hin by (by apply elem_of_empty_cells).
  apply list_elem_of_lookup_1 in Hin as (i & Hi).
  pose proof (lookup_lt_Some _ _ _ Hi) as Hlt.
  destruct (draw_selects i (length (empty_cells occupied g)) Hlt) as [Hr Hsel].
  eexists. split; [exact Hr|].
  unfold randomEmptyCell, js_index. rewrite Hsel.
  rewrite decide_False by lia. rewrite decide_True by lia.
  by rewrite Nat2Z.id.
Qed.

Lemma spawner_reaches_every_free_cell_witness :
  ∃ r, unit_draw r ∧ randomEmptyCell ∅ 2 r = Some (Pos 1 1).
Proof.
  apply (spawner_reaches_every_free_cell ∅ 2 (Pos 1 1)); simpl; try lia.
  apply not_elem_of_empty.
Defined.

(** ** What every reachable state of the live engine satisfies *)

Lemma builder_has_true cx cy b :
  builder_has cx cy b = true ↔ Pos cx cy ∈ builder_cells b.
Proof.
  unfold builder_has, builder_cells.
  rewrite existsb_exists, list_elem_of_fmap. split.
  - intros (c & Hc & Hxy). apply andb_true_iff in Hxy as [Hx Hy].
    apply Z.eqb_eq in Hx, Hy. exists c. subst.
    split; [done|by apply list_elem_of_In].
  - intros (c & [= -> ->] & Hc). exists c.
    split; [by apply list_elem_of_In|]. by rewrite !Z.eqb_refl.
Qed.

Lemma builder_has_false cx cy b :
  builder_has cx cy b = false ↔ Pos cx cy ∉ builder_cells b.
Proof.
  rewrite <- builder_has_true. destruct (builder_has cx cy b); split; congruence.
Qed.

Lemma NoDup_fmap_eq {A B} (f : A → B) (l : list A) x y :
  NoDup (f <$> l) → x ∈ l → y ∈ l → f x = f y → x = y.
Proof.
  induction l as [|a l IH]; simpl; [by intros _ ?%elem_of_nil|].
  intros [Ha Hl]%NoDup_cons [->|Hx]%elem_of_cons [->|Hy]%elem_of_cons Hf;
    [done| | |by apply IH].
  - destruct Ha. rewrite Hf. by apply list_elem_of_fmap_2.
  - destruct Ha. rewrite <- Hf. by apply list_elem_of_fmap_2.
Qed.

Lemma initialFoods_cells b p :
  p ∈ initialFoods b ↔ ∃ c, c ∈ b ∧ kind c = food ∧ p = Pos (bx c) (by_ c).
Proof.
  unfold initialFoods. rewrite list_elem_of_fmap. split.
  - intros (c & -> & [Hk Hc]%list_elem_of_filter). eauto.
  - intros (c & Hc & Hk & ->). exists c. split; [done|].
    by apply list_elem_of_filter.
Qed.

Lemma initialObstacles_cells b p :
  p ∈ initialObstacles b
  ↔ ∃ c, c ∈ b ∧ kind c = obstacle ∧ p = Pos (bx c) (by_ c).
Proof.
  unfold initialObstacles. rewrite list_elem_of_fmap. split.
  - intros (c & -> & [Hk Hc]%list_elem_of_filter). eauto.
  - intros (c & Hc & Hk & ->). exists c. split; [done|].
    by apply list_elem_of_filter.
Qed.

Lemma set_builder_invariant b s :
  NoDup (builder_cells b) → Forall in_grid (builder_cells b) →
  engine_invariant s → engine_invariant (set_builder b s).
Proof.
  intros Hnd Hgrid (Hlen & Hsc & Hin & Hcon & _).
  unfold engine_invariant. cbn [set_builder snake score builder obstacles foods].
  split_and!; try done.
  - apply Forall_forall. intros p (c & Hc & _ & ->)%initialFoods_cells.
    rewrite Forall_forall in Hgrid. apply Hgrid.
    by apply (list_elem_of_fmap_2 (λ c, Pos (bx c) (by_ c))).
  - intros p (c & Hc & Hk & ->)%initialFoods_cells
             (c' & Hc' & Hk' & Heq)%initialObstacles_cells.
    assert (c = c') as <-; [|congruence].
    by apply (NoDup_fmap_eq (λ c, Pos (bx c) (by_ c)) b).
Qed.

Lemma add_cell_invariant k cx cy s :
  builder_has cx cy (builder s) = false → in_grid (Pos cx cy) →
  engine_invariant s →
  engine_invariant (set_builder (builder s ++ [Cell cx cy k]) s).
Proof.
  intros Hfree Hg Hinv. pose proof Hinv as (_ & _ & _ & _ & Hnd & Hgrid & _).
  apply builder_has_false in Hfree.
  apply set_builder_invariant; [| |done]; unfold builder_cells in *;
    rewrite fmap_app; simpl.
  - apply NoDup_app. split_and!; [done| |apply NoDup_singleton].
    intros p Hp ->%list_elem_of_singleton. done.
  - apply Forall_app. split; [done|]. by apply Forall_singleton.
Qed.

Lemma connected_pop l : connected l → connected (pop l).
Proof.
  induction l as [|a [|b l] IH]; [done..|].
  intros [Hab Hl]. rewrite pop_cons_cons. specialize (IH Hl).
  destruct l as [|c l]; [done|]. rewrite pop_cons_cons in *. done.
Qed.

Lemma candidate_adjacent h d nx ny :
  candidate h d = (nx, ny) → adjacent (Pos nx ny) h.
Proof.
  rewrite candidate_delta. intros [= <- <-].
  unfold adjacent. destruct d; simpl; lia.
Qed.

Lemma not_out_of_grid nx ny :
  out_of_grid GRID_SIZE nx ny = false → in_grid (Pos nx ny).
Proof.
  intros H. unfold in_grid; simpl.
  destruct (decide (0 ≤ nx < GRID_SIZE ∧ 0 ≤ ny < GRID_SIZE)) as [|Hn]; [done|].
  apply out_of_grid_true in Hn. congruence.
Qed.

Lemma START_SNAKE_shape :
  Forall in_grid START_SNAKE ∧ connected START_SNAKE.
Proof.
  change START_SNAKE with [Pos 9 10; Pos 10 10; Pos 11 10].
  split.
  - apply Forall_forall. intros p Hp.
    rewrite !elem_of_cons in Hp.
    destruct Hp as [->|[->|[->|Hp]]]; [..|by apply elem_of_nil in Hp];
      unfold in_grid, GRID_SIZE; simpl; lia.
  - repeat split; unfold adjacent; simpl; lia.
Qed.

Lemma set_snake_invariant l s :
  (3 ≤ length l)%nat → Z.of_nat (length l) = 3 + score s →
  Forall in_grid l → connected l →
  engine_invariant s → engine_invariant (set_snake l s).
Proof.
  intros H1 H2 H3 H4 (_ & _ & _ & _ & H5 & H6 & H7 & H8 & H9).
  unfold engine_invariant. cbn [set_snake snake score builder obstacles foods].
  done.
Qed.

Lemma tick_engine_invariant r s s' :
  tick r s = Some s' → engine_invariant s → engine_invariant s'.
Proof.
  intros Ht (Hlen & Hsc & Hin & Hcon & Hnd & Hgrid & Hobs & Hfg & Hfo).
  destruct (snake s) as [|h t] eqn:Hs; [simpl in Hlen; lia|].
  destruct (candidate h (dir s)) as [nx ny] eqn:Hc.
  destruct (blocked s nx ny) eqn:Hb.
  - rewrite (tick_blocked r s h t nx ny) in Ht by done.
    injection Ht as <-. unfold engine_invariant.
    cbn [set_gameOver snake score builder obstacles foods]. by rewrite Hs.
  - pose proof Hb as Hb'. unfold blocked in Hb'.
    apply orb_false_iff in Hb' as [Hb' _]. apply orb_false_iff in Hb' as [Hw _].
    apply not_out_of_grid in Hw. apply candidate_adjacent in Hc as Hadj.
    assert (Forall in_grid (Pos nx ny :: snake s)) as Hin'
      by (rewrite Hs; by apply Forall_cons).
    assert (connected (Pos nx ny :: snake s)) as Hcon'
      by (rewrite Hs; by split).
    destruct (findIndex (same_cell nx ny) (foods s)) as [i|] eqn:Hf.
    + destruct (tick_eat r s h t nx ny i)
        as (s1 & Ht1 & Hsn & Hscore & _ & Hob & _ & _ & Hbu & Hfoods); try done.
      rewrite Ht1 in Ht. injection Ht as <-.
      assert (∃ sl, foods s1 = delete i (foods s) ++ sl
                ∧ Forall in_grid sl ∧ ∀ p, p ∈ sl → p ∉ obstacles s)
        as (sl & Hfoods' & Hsl1 & Hsl2).
      { destruct (randomEmptyCell _ _ _) as [sp|] eqn:Hsp.
        - exists [sp]. split; [done|].
          apply randomEmptyCell_free in Hsp as (Hx & Hy & Hfree).
          split; [by apply Forall_singleton|].
          intros p ->%list_elem_of_singleton Ho. apply Hfree.
          apply elem_of_list_to_set, elem_of_app.
          right. by apply list_elem_of_fmap_2.
        - exists []. split; [done|]. split; [constructor|].
          intros p Hp. by apply elem_of_nil in Hp. }
      unfold engine_invariant. rewrite Hsn, Hscore, Hob, Hbu, Hfoods', Hs.
      rewrite Hs in Hin', Hcon'.
      split_and!; try done; simpl length in *; try lia.
      * apply Forall_app. split; [by apply Forall_delete|done].
      * intros p [Hp|Hp]%elem_of_app; [|by apply Hsl2].
        apply Hfo. eapply elem_of_sublist; [done|apply sublist_delete].
    + rewrite (tick_move r s h t nx ny) in Ht by done.
      assert (set_snake (pop (Pos nx ny :: snake s)) s = s') as <-
        by congruence.
      apply set_snake_invariant.
      * rewrite pop_cons_length, Hs. done.
      * rewrite pop_cons_length, Hs. done.
      * apply Forall_forall. intros p Hp. rewrite Forall_forall in Hin'.
        apply Hin'.
        apply (elem_of_sublist (pop (Pos nx ny :: snake s)) _ p Hp), pop_sublist.
      * by apply connected_pop.
      * unfold engine_invariant. rewrite Hs. done.
Qed.

Lemma handle_engine_invariant e s s' :
  handle e s = Some s' → engine_invariant s → engine_invariant s'.
Proof.
  intros Hh Hinv. destruct e; simpl in Hh; try (injection Hh as <-).
  - unfold game_loop in Hh. destruct (paused s || gameOver s).
    + by injection Hh as <-.
    + by eapply tick_engine_invariant.
  - unfold onKey. destruct (key_dir k) as [nd|]; [|done].
    destruct (opposite (dir s) nd); [done|]. by destruct nd.
  - done.
  - unfold onTouchEnd. destruct (touchStart s) as [t|]; [|done].
    repeat match goal with |- context [if ?b then _ else _] => destruct b end;
      done.
  - done.
  - destruct Hinv as (_ & _ & _ & _ & H5 & H6 & H7 & H8 & H9).
    destruct START_SNAKE_shape as [Hg Hc].
    unfold engine_invariant.
    cbn [restart set_gameOver set_score set_dir set_snake snake score builder
         obstacles foods].
    split_and!; try done.
  - unfold addToBuilder. change (GRID_SIZE / 2) with 10. cbv zeta.
    destruct (builder_has _ _ (builder s)) eqn:Hhas; [done|].
    apply add_cell_invariant; [done| |done].
    unfold in_grid, GRID_SIZE; simpl. lia.
  - unfold onDrop.
    destruct ((cx >=? 0) && (cy >=? 0) && (cx <? GRID_SIZE) && (cy <? GRID_SIZE))
      eqn:Hrange; [|done].
    destruct (builder_has cx cy (builder s)) eqn:Hhas; [done|].
    apply add_cell_invariant; [done| |done].
    rewrite !andb_true_iff, !Z.geb_le, !Z.ltb_lt in Hrange.
    unfold in_grid; simpl. lia.
  - destruct Hinv as (Hlen & Hsc & Hin & Hcon & _).
    unfold engine_invariant.
    cbn [clearBuilder set_obstacles set_foods set_builder snake score builder
         obstacles foods].
    split_and!; try done; try constructor.
    intros p Hp. by apply elem_of_nil in Hp.
Qed.

Lemma initial_engine_invariant : engine_invariant initial.
Proof.
  destruct START_SNAKE_shape as [Hg Hc].
  unfold engine_invariant, initial, mount.
  cbn [snake score builder obstacles foods].
  split_and!; try done; try constructor.
  intros p Hp. by apply elem_of_nil in Hp.
Qed.

Lemma reachable_engine_invariant s : reachable s → engine_invariant s.
Proof.
  induction 1 as [|s e s' _ IH _ Hh]; [apply initial_engine_invariant|].
  by eapply handle_engine_invariant.
Qed.

(** X8: in every reachable state the snake has 3 cells plus one per
    point of the score, and the score is not negative. *)
Theorem score_counts_growth s :
  reachable s →
  Z.of_nat (length (snake s)) = 3 + score s ∧ 0 ≤ score s.
Proof.
  intros (Hlen & Hsc & _)%reachable_engine_invariant. lia.
Qed.

Lemma score_counts_growth_witness :
  Z.of_nat (length (snake two_foods)) = 3 + score two_foods
  ∧ 0 ≤ score two_foods.
Proof. apply (score_counts_growth two_foods). apply reachable_two_foods. Defined.

(** X9: in a reachable state the timer callback never fails on an
    empty snake, and neither does the first step of the HTML script
    exported from it. *)
Theorem engine_never_throws s :
  reachable s →
  (∀ r, is_Some (game_loop r s))
  ∧ (∀ rs, is_Some (Html.step rs (doExport_html s))).
Proof.
  intros (Hlen & _)%reachable_engine_invariant.
  assert (snake s ≠ []) as Hne by (intros E; rewrite E in Hlen; simpl in Hlen; lia).
  split.
  - intros r. unfold game_loop. destruct (paused s || gameOver s); [done|].
    by apply tick_total.
  - intros rs. unfold Html.step, doExport_html, Html.exported.
    cbn [Html.gameOver Html.paused Html.snake orb].
    destruct (snake s) as [|h t]; [done|].
    repeat match goal with
           | |- is_Some (if ?b then _ else _) => destruct b
           | |- is_Some (match ?o with Some _ => _ | None => _ end) => destruct o
           end; done.
Qed.

Lemma engine_never_throws_witness :
  (∀ r, is_Some (game_loop r two_foods))
  ∧ (∀ rs, is_Some (Html.step rs (doExport_html two_foods))).
Proof. apply (engine_never_throws two_foods). apply reachable_two_foods. Defined.

(** X10: in every reachable state all snake cells lie inside the grid
    and each cell of the body is one step away from the next. *)
Theorem snake_in_grid_and_connected s :
  reachable s → Forall in_grid (snake s) ∧ connected (snake s).
Proof.
  by intros (_ & _ & Hin & Hcon & _)%reachable_engine_invariant.
Qed.

Lemma snake_in_grid_and_connected_witness :
  Forall in_grid (snake two_foods) ∧ connected (snake two_foods).
Proof.
  apply (snake_in_grid_and_connected two_foods). apply reachable_two_foods.
Defined.

(** X11: in every reachable state the cells of the builder are pairwise
    distinct and inside the grid, and the obstacles of the game are the
    obstacle cells of the builder. *)
Theorem builder_cells_distinct_in_grid s :
  reachable s →
  NoDup (builder_cells (builder s))
  ∧ Forall in_grid (builder_cells (builder s))
  ∧ obstacles s = initialObstacles (builder s).
Proof.
  by intros (_ & _ & _ & _ & Hnd & Hg & Ho & _)%reachable_engine_invariant.
Qed.

Lemma builder_cells_distinct_in_grid_witness :
  NoDup (builder_cells (builder two_foods))
  ∧ Forall in_grid (builder_cells (builder two_foods))
  ∧ obstacles two_foods = initialObstacles (builder two_foods).
Proof.
  apply (builder_cells_distinct_in_grid two_foods). apply reachable_two_foods.
Defined.

(** X12: in every reachable state every food lies inside the grid and
    no food lies on an obstacle. *)
Theorem foods_in_grid_off_obstacles s :
  reachable s →
  Forall in_grid (foods s) ∧ ∀ p, p ∈ foods s → p ∉ obstacles s.
Proof.
  by intros (_ & _ & _ & _ & _ & _ & _ & Hg & Hd)%reachable_engine_invariant.
Qed.

Lemma foods_in_grid_off_obstacles_witness :
  Forall in_grid (foods two_foods)
  ∧ ∀ p, p ∈ foods two_foods → p ∉ obstacles two_foods.
Proof.
  apply (foods_in_grid_off_obstacles two_foods). apply reachable_two_foods.
Defined.

(** ** The eating tick *)

Lemma findIndex_first {A} (f : A → bool) l i :
  findIndex f l = Some i →
  ∀ j a, (j < i)%nat → l !! j = Some a → f a = false.
Proof.
  revert i; induction l as [|b l IH]; intros i; simpl; [done|].
  destruct (f b) eqn:Hb.
  - intros [= <-] j a Hj. lia.
  - destruct (findIndex f l) as [k|]; simpl; [|done].
    intros [= <-] [|j] a Hj; simpl.
    + by intros [= <-].
    + apply (IH k eq_refl). lia.
Qed.

(** X13: a timer firing that raises the score removed the food at the
    first index of the foods that holds the new head (no earlier index
    holds it) and then either appended one food, which lies inside the
    grid and on no cell of the new snake or of the obstacles, or
    appended none, and then snake and obstacles cover the grid. *)
Theorem eating_tick_foods r s s' :
  unit_draw r → game_loop r s = Some s' → score s' = score s + 1 →
  ∃ i f, foods s !! i = Some f
    ∧ (∀ j g, (j < i)%nat → foods s !! j = Some g → g ≠ f)
    ∧ head (snake s') = Some f
    ∧ ((∃ sp, foods s' = delete i (foods s) ++ [sp]
              ∧ in_grid sp ∧ (sp ∉ snake s') ∧ (sp ∉ obstacles s'))
       ∨ (foods s' = delete i (foods s)
          ∧ ∀ x y, 0 ≤ x < GRID_SIZE → 0 ≤ y < GRID_SIZE →
                   Pos x y ∈ snake s' ∨ Pos x y ∈ obstacles s')).
Proof.
  intros Hr Hg Hscore. unfold game_loop in Hg.
  destruct (paused s || gameOver s); [injection Hg as <-; lia|].
  destruct (snake s) as [|h t] eqn:Hs;
    [unfold tick in Hg; by rewrite Hs in Hg|].
  destruct (candidate h (dir s)) as [nx ny] eqn:Hc.
  destruct (blocked s nx ny) eqn:Hb.
  { rewrite (tick_blocked r s h t nx ny) in Hg by done.
    assert (set_gameOver true s = s') as <- by congruence.
    simpl in Hscore. lia. }
  destruct (findIndex (same_cell nx ny) (foods s)) as [i|] eqn:Hf; cycle 1.
  { rewrite (tick_move r s h t nx ny) in Hg by done.
    assert (set_snake (pop (Pos nx ny :: snake s)) s = s') as <- by congruence.
    simpl in Hscore. lia. }
  destruct (tick_eat r s h t nx ny i)
    as (s1 & Ht1 & Hsn & _ & _ & Hob & _ & _ & _ & Hfoods); try done.
  rewrite Ht1 in Hg. assert (s1 = s') as -> by congruence.
  pose proof (findIndex_first _ _ _ Hf) as Hfirst.
  apply findIndex_Some in Hf as (f & Hfi & ->%same_cell_true).
  exists i, (Pos nx ny). split; [done|].
  split.
  { intros j g Hj Hjg ->. specialize (Hfirst j _ Hj Hjg).
    assert (same_cell nx ny (Pos nx ny) = true) by (by apply same_cell_true).
    congruence. }
  split; [by rewrite Hsn|].
  rewrite Hsn, Hob.
  destruct (randomEmptyCell _ _ _) as [sp|] eqn:Hsp.
  - left. exists sp. split; [done|].
    apply randomEmptyCell_free in Hsp as (Hx & Hy & Hfree).
    split; [done|].
    split; intros Hin; apply Hfree; apply elem_of_list_to_set, elem_of_app;
      [left|right]; by apply list_elem_of_fmap_2.
  - right. split; [by rewrite Hfoods, app_nil_r|].
    intros x y Hx Hy.
    pose proof (randomEmptyCell_None _ _ _ Hr Hsp x y Hx Hy) as Hk.
    apply elem_of_list_to_set, elem_of_app in Hk
      as [(q & Hq & Hin)%list_elem_of_fmap|(q & Hq & Hin)%list_elem_of_fmap];
      apply keyFor_eq_inv in Hq as <-; auto.
Qed.

Lemma eating_tick_foods_witness :
  ∃ i f, foods two_foods !! i = Some f
    ∧ (∀ j g, (j < i)%nat → foods two_foods !! j = Some g → g ≠ f)
    ∧ head (snake after_two_foods) = Some f
    ∧ ((∃ sp, foods after_two_foods = delete i (foods two_foods) ++ [sp]
              ∧ in_grid sp ∧ (sp ∉ snake after_two_foods)
              ∧ (sp ∉ obstacles after_two_foods))
       ∨ (foods after_two_foods = delete i (foods two_foods)
          ∧ ∀ x y, 0 ≤ x < GRID_SIZE → 0 ≤ y < GRID_SIZE →
                   Pos x y ∈ snake after_two_foods
                   ∨ Pos x y ∈ obstacles after_two_foods)).
Proof.
  apply (eating_tick_foods (169 # 396) two_foods after_two_foods).
  - split; [discriminate|reflexivity].
  - vm_compute. reflexivity.
  - vm_compute. reflexivity.
Defined.

(** ** Lifecycle *)

(** X14: once the game is over, no event but Restart ends game over,
    moves the snake or changes the score. *)
Theorem game_over_is_terminal e s s' :
  gameOver s = true → e ≠ Restart → handle e s = Some s' →
  gameOver s' = true ∧ snake s' = snake s ∧ score s' = score s.
Proof.
  intros Hgo Hne Hh. destruct e; simpl in Hh; try done;
    try (injection Hh as <-).
  - unfold game_loop in Hh. rewrite Hgo, orb_true_r in Hh.
    by injection Hh as <-.
  - unfold onKey. destruct (key_dir k) as [nd|]; [|done].
    destruct (opposite (dir s) nd); [done|]. by destruct nd.
  - done.
  - unfold onTouchEnd. destruct (touchStart s) as [t|]; [|done].
    repeat match goal with |- context [if ?b then _ else _] => destruct b end;
      done.
  - done.
  - unfold addToBuilder. by destruct (builder_has _ _ _).
  - unfold onDrop.
    repeat match goal with |- context [if ?b then _ else _] => destruct b end;
      done.
  - done.
Qed.

Lemma game_over_is_terminal_witness :
  gameOver finished_game = true
  ∧ snake finished_game = snake finished_game
  ∧ score finished_game = score finished_game.
Proof.
  apply (game_over_is_terminal (Tick 0) finished_game finished_game);
    [reflexivity|discriminate|reflexivity].
Defined.

Lemma run_paused rs s : paused s = true → run rs s = Some s.
Proof.
  intros Hp. induction rs as [|r rs IH]; [done|].
  rewrite (run_step r rs s s); [done|].
  unfold game_loop. by rewrite Hp.
Qed.

(** X15: pausing a game, letting the timer fire any number of times and
    resuming gives back exactly the state before the pause. *)
Theorem pause_resume_round_trip rs s :
  paused s = false →
  togglePause <$> run rs (togglePause s) = Some s.
Proof.
  intros Hp. rewrite run_paused by (simpl; by rewrite Hp).
  destruct s; simpl in *; subst. reflexivity.
Qed.

Lemma pause_resume_round_trip_witness :
  togglePause <$> run [0; 0; 0]%Q (togglePause two_foods) = Some two_foods.
Proof.
  apply (pause_resume_round_trip [0; 0; 0]%Q two_foods). reflexivity.
Defined.

(** X16: a RUNNING snake whose candidate head is its second cell ends
    the game at the tick, whatever lies around it. *)
Theorem heading_into_neck_is_fatal r s h n rest :
  status s = RUNNING → snake s = h :: n :: rest →
  candidate h (dir s) = (px n, py n) →
  game_loop r s = Some (set_gameOver true s).
Proof.
  intros Hrun Hs Hc. rewrite game_loop_running by done.
  apply (tick_blocked r s h (n :: rest) (px n) (py n) Hs Hc).
  unfold blocked. rewrite Hs.
  assert (some_cell (px n) (py n) (h :: n :: rest) = true) as ->.
  { apply some_cell_true. destruct n. right. left. }
  by rewrite orb_true_r.
Qed.

Lemma heading_into_neck_is_fatal_witness :
  game_loop 0 (restart two_foods) = Some (set_gameOver true (restart two_foods)).
Proof.
  apply (heading_into_neck_is_fatal 0 (restart two_foods)
           (Pos 9 10) (Pos 10 10) [Pos 11 10]); reflexivity.
Defined.

(** X17: every freshly mounted game, whatever the builder holds, and
    every restarted game that is not paused is over after its first
    timer firing when no key or swipe came before it: the head (9,10)
    heads RIGHT into the body cell (10,10). *)
Theorem first_tick_without_input_is_fatal r :
  (∀ b, game_loop r (mount b) = Some (set_gameOver true (mount b)))
  ∧ (∀ s, paused s = false →
          game_loop r (restart s) = Some (set_gameOver true (restart s))).
Proof.
  split.
  - intros b. rewrite game_loop_running by done.
    by apply (tick_blocked r (mount b) (Pos 9 10) [Pos 10 10; Pos 11 10] 10 10).
  - intros s Hp.
    rewrite game_loop_running by (apply status_RUNNING; by rewrite <- Hp).
    by apply (tick_blocked r (restart s) (Pos 9 10) [Pos 10 10; Pos 11 10]
                10 10).
Qed.

(** ** Direction input *)

(** X18: one key press never commits the heading opposite to the
    current one, an unrecognised key changes nothing, and no key
    touches the snake, the foods, the score or the flags. *)
Theorem keyboard_filters_one_key k s :
  opposite (dir s) (dir (onKey k s)) = false
  ∧ (key_dir k = None → onKey k s = s)
  ∧ snake (onKey k s) = snake s ∧ foods (onKey k s) = foods s
  ∧ obstacles (onKey k s) = obstacles s ∧ score (onKey k s) = score s
  ∧ paused (onKey k s) = paused s ∧ gameOver (onKey k s) = gameOver s.
Proof.
  split; [apply onKey_never_reverses|].
  unfold onKey. destruct (key_dir k) as [nd|]; [|done].
  split; [done|].
  destruct (opposite (dir s) nd); [done|]. by destruct nd.
Qed.

(** X19: two key presses between two timer firings do reverse the
    snake: from every state some pair of keys commits the heading
    opposite to the current one. *)
Theorem two_keys_reverse s :
  ∃ k1 k2, dir (onKey k2 (onKey k1 s)) = reverse (dir s)
           ∧ opposite (dir s) (reverse (dir s)) = true.
Proof.
  destruct (dir s) eqn:Hd.
  - exists "ArrowLeft", "ArrowDown".
    rewrite (onKey_accept "ArrowDown" _ DOWN eq_refl),
      (onKey_accept "ArrowLeft" _ LEFT eq_refl), Hd. done.
  - exists "ArrowLeft", "ArrowUp".
    rewrite (onKey_accept "ArrowUp" _ UP eq_refl),
      (onKey_accept "ArrowLeft" _ LEFT eq_refl), Hd. done.
  - exists "ArrowUp", "ArrowRight".
    rewrite (onKey_accept "ArrowRight" _ RIGHT eq_refl),
      (onKey_accept "ArrowUp" _ UP eq_refl), Hd. done.
  - exists "ArrowUp", "ArrowLeft".
    rewrite (onKey_accept "ArrowLeft" _ LEFT eq_refl),
      (onKey_accept "ArrowUp" _ UP eq_refl), Hd. done.
Qed.

Lemma Qgtb_false a b : (a <= b)%Q → Qgtb a b = false.
Proof. intros H. unfold Qgtb. apply Qle_bool_iff in H. by rewrite H. Qed.

Lemma Qltb_false a b : (b <= a)%Q → Qltb a b = false.
Proof. intros H. unfold Qltb. apply Qle_bool_iff in H. by rewrite H. Qed.

(** X20: a touch that ends at most 20 pixels away from its start on
    both axes leaves the heading as it is and clears the stored start
    point. *)
Theorem swipe_dead_zone p t s :
  touchStart s = Some t →
  (Qabs (fst p - fst t) <= 20)%Q → (Qabs (snd p - snd t) <= 20)%Q →
  dir (onTouchEnd p s) = dir s ∧ touchStart (onTouchEnd p s) = None.
Proof.
  intros Ht [Hx1 Hx2]%Qabs_Qle_condition [Hy1 Hy2]%Qabs_Qle_condition.
  unfold onTouchEnd. rewrite Ht.
  rewrite (Qgtb_false _ 20 Hx2), (Qgtb_false _ 20 Hy2).
  rewrite (Qltb_false _ (-20) Hx1), (Qltb_false _ (-20) Hy1).
  by destruct (Qgtb _ _).
Qed.

Lemma swipe_dead_zone_witness :
  dir (onTouchEnd (110, 95)%Q (onTouchStart (100, 100)%Q two_foods))
  = dir (onTouchStart (100, 100)%Q two_foods)
  ∧ touchStart (onTouchEnd (110, 95)%Q (onTouchStart (100, 100)%Q two_foods))
    = None.
Proof.
  apply (swipe_dead_zone (110, 95)%Q (100, 100)%Q
           (onTouchStart (100, 100)%Q two_foods)).
  - reflexivity.
  - vm_compute. discriminate.
  - vm_compute. discriminate.
Defined.

(** ** The Python export *)

Lemma tuple_not_exported a b l :
  bool_decide (Py.tuple a b ∈ Py.of_json l) = false.
Proof.
  apply bool_decide_eq_false. unfold Py.of_json.
  by intros (p & Hp & _)%list_elem_of_fmap.
Qed.

(** X21: the Python loop never eats a food that was exported: its test
    compares the tuple of the new head with the exported dicts, so a
    move leaves the foods as they are and the snake at its length. *)
Theorem python_never_eats_exported_food grid s s' l :
  Py.foods s = Py.of_json l → Py.move grid s = Some s' →
  Py.foods s' = Py.foods s
  ∧ length (Py.snake s') = length (Py.snake s).
Proof.
  intros Hf Hm. unfold Py.move in Hm.
  destruct (Py.snake s) as [|h t] eqn:Hs; [done|].
  destruct (out_of_grid _ _ _);
    [injection Hm as <-; simpl; by rewrite Hs|].
  destruct (bool_decide (_ ∈ h :: t));
    [injection Hm as <-; simpl; by rewrite Hs|].
  rewrite Hf, tuple_not_exported in Hm.
  assert (∀ c, length (pop (c :: h :: t)) = length (h :: t)) as Hpop
    by (intros c; apply pop_cons_length).
  destruct s'. simplify_eq/=. split; [done|exact (Hpop h)].
Qed.

Lemma python_never_eats_exported_food_witness :
  Py.foods (default (doExport_python two_foods)
              (Py.move GRID_SIZE (doExport_python two_foods)))
  = Py.foods (doExport_python two_foods)
  ∧ length (Py.snake (default (doExport_python two_foods)
                        (Py.move GRID_SIZE (doExport_python two_foods))))
    = length (Py.snake (doExport_python two_foods)).
Proof.
  apply (python_never_eats_exported_food GRID_SIZE (doExport_python two_foods)
           _ (foods two_foods)).
  - reflexivity.
  - vm_compute. reflexivity.
Defined.

Lemma python_first_move f o :
  Py.move GRID_SIZE (Py.init GRID_SIZE f o) =
  Some {| Py.snake := [(11, 10); (10, 10); (9, 10)]; Py.dir := (1, 0);
          Py.foods := Py.of_json f; Py.obstacles := Py.of_json o;
          Py.running := true |}.
Proof.
  unfold Py.move, Py.init.
  cbn [Py.snake Py.dir Py.foods Py.obstacles Py.running].
  change (GRID_SIZE / 2) with 10. change (10 - 1) with 9. change (10 - 2) with 8.
  cbn [fst snd]. change (10 + 1) with 11. change (10 + 0) with 10.
  rewrite tuple_not_exported. reflexivity.
Qed.

(** X22: exported from a game that holds at least one food or one
    obstacle, the Python program fails in its first pass through the
    loop: the move succeeds and the drawing code subscripts a dict. *)
Theorem python_export_raises s :
  foods s ≠ [] ∨ obstacles s ≠ [] →
  Py.iteration GRID_SIZE (doExport_python s) = None.
Proof.
  intros Hne. unfold Py.iteration, doExport_python.
  rewrite python_first_move. cbn [mbind option_bind Py.running].
  unfold Py.draw. cbn [Py.foods Py.obstacles].
  destruct (foods s) as [|a f]; [|done].
  destruct (obstacles s) as [|b o]; [|done].
  by destruct Hne.
Qed.

Lemma python_export_raises_witness :
  Py.iteration GRID_SIZE (doExport_python two_foods) = None.
Proof. apply (python_export_raises two_foods). left. discriminate. Defined.

Lemma pairs_elem_of nx ny (l : list Position) :
  bool_decide ((nx, ny) ∈ (λ p, (px p, py p)) <$> l) = some_cell nx ny l.
Proof.
  destruct (some_cell nx ny l) eqn:E.
  - apply bool_decide_eq_true. apply some_cell_true in E.
    by apply (list_elem_of_fmap_2 (λ p, (px p, py p)) l (Pos nx ny)).
  - apply bool_decide_eq_false. apply some_cell_false in E.
    intros ([x y] & [= -> ->] & Hin)%list_elem_of_fmap. done.
Qed.

Lemma fmap_pop {A B} (f : A → B) (l : list A) : f <$> pop l = pop (f <$> l).
Proof.
  induction l as [|a [|b l] IH]; [done..|].
  rewrite pop_cons_cons, fmap_cons, IH. reflexivity.
Qed.

(** X23: on corresponding states the Python loop and the live tick take
    the same wall and self-collision decision whenever the candidate
    head is no obstacle, and leave the same snake whenever it is no
    food either. *)
Theorem python_agrees_off_obstacles r s h t nx ny :
  status s = RUNNING → snake s = h :: t →
  candidate h (dir s) = (nx, ny) →
  some_cell nx ny (obstacles s) = false →
  ∃ s' p', game_loop r s = Some s'
    ∧ Py.move GRID_SIZE (py_view s) = Some p'
    ∧ Py.running p' = negb (gameOver s')
    ∧ (some_cell nx ny (foods s) = false →
       Py.snake p' = (λ p, (px p, py p)) <$> snake s').
Proof.
  intros Hrun Hs Hc Ho. rewrite game_loop_running by done.
  pose proof Hc as Hc'. rewrite candidate_delta in Hc'.
  injection Hc' as Hnx Hny.
  unfold Py.move, py_view.
  cbn [Py.snake Py.dir Py.foods Py.obstacles Py.running].
  rewrite Hs, fmap_cons. cbn [fst snd].
  rewrite tuple_not_exported, Hnx, Hny.
  change ((px h, py h) :: ((λ p : Position, (px p, py p)) <$> t))
    with ((λ p : Position, (px p, py p)) <$> (h :: t)).
  rewrite pairs_elem_of, <- Hs.
  apply status_RUNNING in Hrun as [Hp Hg].
  destruct (out_of_grid GRID_SIZE nx ny) eqn:Hw.
  { rewrite (tick_blocked r s h t nx ny Hs Hc)
      by (unfold blocked; by rewrite Hw).
    eexists _, _. by repeat split. }
  destruct (some_cell nx ny (snake s)) eqn:Hself.
  { rewrite (tick_blocked r s h t nx ny Hs Hc)
      by (unfold blocked; by rewrite Hw, Hself).
    eexists _, _. by repeat split. }
  assert (blocked s nx ny = false) as Hb
    by (unfold blocked; by rewrite Hw, Hself, Ho).
  destruct (findIndex (same_cell nx ny) (foods s)) as [i|] eqn:Hf.
  - destruct (tick_eat r s h t nx ny i Hs Hc Hb Hf)
      as (s' & -> & _ & _ & _ & _ & _ & Hg' & _).
    eexists _, _. split; [done|]. split; [done|].
    split; [by rewrite Hg', Hg|].
    intros Hno. apply findIndex_None in Hno. congruence.
  - rewrite (tick_move r s h t nx ny Hs Hc Hb Hf).
    eexists _, _. split; [done|]. split; [done|].
    split; [by cbn; rewrite Hg|].
    intros _. cbn [Py.snake set_snake snake].
    by rewrite fmap_pop, fmap_cons.
Qed.

Lemma python_agrees_off_obstacles_witness :
  ∃ s' p', game_loop 0 two_foods = Some s'
    ∧ Py.move GRID_SIZE (py_view two_foods) = Some p'
    ∧ Py.running p' = negb (gameOver s')
    ∧ (some_cell 9 9 (foods two_foods) = false →
       Py.snake p' = (λ p, (px p, py p)) <$> snake s').
Proof.
  apply (python_agrees_off_obstacles 0 two_foods (Pos 9 10)
           [Pos 10 10; Pos 11 10] 9 9); reflexivity.
Defined.

(** ** The HTML export *)

(** X24: exported from a RUNNING game that heads RIGHT, the first step
    of the HTML script takes the collision decision of the live tick
    and leaves the same snake. *)
Theorem export_html_first_step_matches r rs s :
  dir s = RIGHT → status s = RUNNING → snake s ≠ [] →
  ∃ s' h', game_loop r s = Some s'
    ∧ Html.step rs (doExport_html s) = Some h'
    ∧ Html.gameOver h' = gameOver s'
    ∧ Html.snake h' = snake s'.
Proof.
  intros Hd [Hp Hg]%status_RUNNING Hne.
  assert (doExport_html s = html_view s) as ->.
  { unfold doExport_html, Html.exported, html_view. by rewrite Hd, Hp, Hg. }
  destruct (live_html_agree r rs s Hne) as (s' & h' & ? & ? & ? & ? & ?).
  by exists s', h'.
Qed.

Lemma export_html_first_step_matches_witness :
  ∃ s' h', game_loop 0 fixture_head_right = Some s'
    ∧ Html.step html_draws (doExport_html fixture_head_right) = Some h'
    ∧ Html.gameOver h' = gameOver s'
    ∧ Html.snake h' = snake s'.
Proof.
  apply (export_html_first_step_matches 0 html_draws fixture_head_right);
    [reflexivity|reflexivity|discriminate].
Defined.

(** X25: the export always heads RIGHT, whatever the heading of the
    game: exported from a snake whose second cell lies to the right of
    its head, as on a fresh or restarted game, the HTML script is over
    after its first step. *)
Theorem export_html_heads_right rs s h rest :
  snake s = h :: Pos (px h + 1) (py h) :: rest →
  Html.step rs (doExport_html s)
  = Some (Html.set_gameOver (doExport_html s)).
Proof.
  intros Hs. unfold Html.step, doExport_html, Html.exported.
  cbn [Html.gameOver Html.paused Html.snake Html.dir Html.vx Html.vy
       Html.GRID Html.obstacles orb].
  rewrite Hs. rewrite Z.add_0_r.
  destruct (out_of_grid _ _ _); [done|].
  assert (some_cell (px h + 1) (py h) (h :: Pos (px h + 1) (py h) :: rest)
          = true) as ->; [|done].
  apply some_cell_true. right. left.
Qed.

Lemma export_html_heads_right_witness :
  Html.step html_draws (doExport_html (restart two_foods))
  = Some (Html.set_gameOver (doExport_html (restart two_foods))).
Proof.
  apply (export_html_heads_right html_draws (restart two_foods)
           (Pos 9 10) [Pos 11 10]).
  reflexivity.
Defined.

Lemma html_spawn_length grid occ rs fo :
  (length (Html.spawn grid occ rs fo) ≤ S (length fo))%nat.
Proof.
  unfold Html.spawn.
  repeat match goal with |- context [if ?b then _ else _] => destruct b end;
    rewrite ?length_app; simpl; lia.
Qed.

(** X26: a step of the HTML script never adds to the number of foods,
    and the snake keeps its length or grows by one cell. *)
Theorem html_step_counts rs s s' :
  Html.step rs s = Some s' →
  (length (Html.foods s') ≤ length (Html.foods s))%nat
  ∧ (length (Html.snake s) ≤ length (Html.snake s')
     ≤ S (length (Html.snake s)))%nat.
Proof.
  unfold Html.step. intros H.
  destruct (Html.gameOver s || Html.paused s);
    [injection H as <-; lia|].
  destruct (Html.snake s) as [|h t] eqn:Hs; [done|].
  repeat (match type of H with
          | (if ?b then _ else _) = _ => destruct b
          end; [injection H as <-; simpl; rewrite Hs; simpl; lia|]).
  destruct (findIndex _ (Html.foods s)) as [i|] eqn:Hf.
  - apply findIndex_Some in Hf as (f & Hi & _).
    assert (is_Some (Html.foods s !! i)) as Hsome by eauto.
    pose proof (length_delete _ _ Hsome) as Hdel.
    pose proof (lookup_lt_Some _ _ _ Hi) as Hlt.
    injection H as <-. cbn [Html.set_body Html.foods Html.snake].
    split; [|simpl; lia].
    etrans; [apply html_spawn_length|]. lia.
  - assert (length (pop (Pos (px h + Html.vx (Html.dir s))
                             (py h + Html.vy (Html.dir s)) :: h :: t))
            = length (h :: t)) as Hpop by apply pop_cons_length.
    injection H as <-. simpl in Hpop |- *. lia.
Qed.

Lemma html_step_counts_witness :
  (length (Html.foods (default html_before_food
                         (Html.step html_draws html_before_food)))
   ≤ length (Html.foods html_before_food))%nat
  ∧ (length (Html.snake html_before_food)
     ≤ length (Html.snake (default html_before_food
                             (Html.step html_draws html_before_food)))
     ≤ S (length (Html.snake html_before_food)))%nat.
Proof.
  apply (html_step_counts html_draws html_before_food).
  vm_compute. reflexivity.
Defined.

(** ** Key tables *)

(** X27: the key table of [useKeyDirection] lists exactly the keys the
    live keyboard handler recognises, with the same headings. *)
Theorem useKeyDirection_map_agrees k :
  useKeyDirection_map !! k = key_dir k.
Proof.
  unfold key_dir.
  repeat (case_bool_decide;
          [match goal with
           | H : _ ∨ _ |- _ => destruct H as [-> | [-> | ->]]
           end; vm_compute; reflexivity|]).
  unfold useKeyDirection_map.
  repeat (rewrite lookup_insert_ne; [|intros <-; tauto]).
  apply lookup_empty.
Qed.

(** X28: every key the listener of the HTML export recognises is
    recognised by the live handler with the same heading, but the
    letter keys w, a, s, d that steer the live game are unknown to the
    HTML export. *)
Theorem html_keys_are_arrows_only :
  (∀ k nd, Html.key_map k = Some nd →
           ∃ d, key_dir k = Some d ∧ nd = Dir_name d)
  ∧ Forall (λ k, Html.key_map k = None ∧ is_Some (key_dir k)) letter_keys.
Proof.
  split.
  - intros k nd. unfold Html.key_map.
    repeat (case_bool_decide;
            [subst k; intros [= <-]; eexists; split; vm_compute; reflexivity|]).
    done.
  - unfold letter_keys. repeat constructor; vm_compute; eauto.
Qed.

(** ** [removeCell] *)

Lemma delete_beyond {A} (l : list A) i : (length l ≤ i)%nat → delete i l = l.
Proof.
  revert i. induction l as [|a l IH]; intros [|i] Hi; simpl in *;
    [done|done|lia|].
  f_equal. apply IH. lia.
Qed.

Lemma removeCell_derived idx s :
  foods (removeCell idx s) = initialFoods (builder (removeCell idx s))
  ∧ obstacles (removeCell idx s) = initialObstacles (builder (removeCell idx s)).
Proof. by split. Qed.

(** X29: removing the last index right after an accepted drop restores
    the builder, and with it the foods and obstacles derived from it. *)
Theorem removeCell_undoes_drop k cx cy s :
  in_grid (Pos cx cy) → builder_has cx cy (builder s) = false →
  let s' := removeCell (Z.of_nat (length (builder s))) (onDrop k cx cy s) in
  builder s' = builder s
  ∧ foods s' = initialFoods (builder s)
  ∧ obstacles s' = initialObstacles (builder s).
Proof.
  intros [Hx Hy] Hfree. simpl in Hx, Hy.
  assert (builder (removeCell (Z.of_nat (length (builder s)))
                     (onDrop k cx cy s)) = builder s) as Hb.
  { unfold onDrop.
    assert ((cx >=? 0) && (cy >=? 0) && (cx <? GRID_SIZE) && (cy <? GRID_SIZE)
            = true) as ->.
    { rewrite !andb_true_iff, !Z.geb_le, !Z.ltb_lt. lia. }
    rewrite Hfree. unfold removeCell. cbn [set_builder builder].
    rewrite decide_True by lia. rewrite Nat2Z.id.
    by rewrite delete_middle, app_nil_r. }
  cbv zeta. split; [done|].
  destruct (removeCell_derived (Z.of_nat (length (builder s)))
              (onDrop k cx cy s)) as [Hf Ho].
  by rewrite Hf, Ho, Hb.
Qed.

Lemma removeCell_undoes_drop_witness :
  let s' := removeCell (Z.of_nat (length (builder two_foods)))
              (onDrop obstacle 3 4 two_foods) in
  builder s' = builder two_foods
  ∧ foods s' = initialFoods (builder two_foods)
  ∧ obstacles s' = initialObstacles (builder two_foods).
Proof.
  apply (removeCell_undoes_drop obstacle 3 4 two_foods).
  - unfold in_grid, GRID_SIZE; simpl; lia.
  - reflexivity.
Defined.

(** X30: an index outside the builder removes nothing, and any removal
    resets the foods and obstacles to those of the builder. *)
Theorem removeCell_out_of_range idx s :
  ¬ (0 ≤ idx < Z.of_nat (length (builder s))) →
  builder (removeCell idx s) = builder s
  ∧ foods (removeCell idx s) = initialFoods (builder s)
  ∧ obstacles (removeCell idx s) = initialObstacles (builder s).
Proof.
  intros Hout.
  assert (builder (removeCell idx s) = builder s) as Hb.
  { unfold removeCell. cbn [set_builder builder].
    destruct (decide (0 ≤ idx)); [|done]. apply delete_beyond. lia. }
  split; [done|].
  destruct (removeCell_derived idx s) as [Hf Ho]. by rewrite Hf, Ho, Hb.
Qed.

Lemma removeCell_out_of_range_witness :
  builder (removeCell (-1) after_two_foods) = builder after_two_foods
  ∧ foods (removeCell (-1) after_two_foods)
    = initialFoods (builder after_two_foods)
  ∧ obstacles (removeCell (-1) after_two_foods)
    = initialObstacles (builder after_two_foods).
Proof. apply (removeCell_out_of_range (-1) after_two_foods). simpl. lia. Defined.
